(** * search_form.js: the clause rows of the search form and the query they compile to

    The script keeps two lists of rows on the page, the [.query_chunk] rows
    (terms to match) and the [.not_chunk] rows (terms to exclude), lets the
    user add and remove rows, and writes the query text built from the rows
    into the field [#id_q].  This file embeds the script's functions
    ([jQuery.substitute], [build_query], [increment_ids] and the click
    handlers installed by [init]) over a record model of the elements they
    read and write, and proves what they do to the page. *)

From Stdlib Require Import String Ascii List Bool ZArith NArith Lia.
From Stdlib Require Import DecimalString DecimalPos DecimalN.
Import ListNotations.
Open Scope string_scope.

(** ** JavaScript values and string primitives the script uses *)

Module Js.

(** [s.split(sep)] for a one-character separator: the pieces between the
    separators, so a string without separator is its own single piece. *)
Fixpoint split_on (sep : ascii) (s : string) : list string :=
  match s with
  | EmptyString => [EmptyString]
  | String c r =>
      match split_on sep r with
      | [] => [EmptyString]
      | p :: ps =>
          if Ascii.eqb c sep then EmptyString :: p :: ps
          else String c p :: ps
      end
  end.

(** An array element that may be missing: [None] is [undefined]. *)
Definition item (k : nat) (a : list string) : option string := nth_error a k.

(** ToString of a string or [undefined], as done by string concatenation,
    by [parseInt] and by [replace] on their arguments. *)
Definition to_string (v : option string) : string :=
  match v with
  | Some s => s
  | None => "undefined"
  end.

(** Numbers are doubles.  The script only makes them with [parseInt] and
    [+ 1], so they are integers or NaN: [Int z] is the double of value [z]. *)
Inductive number : Type :=
| Int (z : Z)
| NaN.

(** The double nearest to an integer, ties going to the even significand
    of 53 binary digits (integers of 1024 binary digits and more, which
    become Infinity, are out of reach of the script). *)
Definition round_double (z : Z) : Z :=
  let a := Z.abs z in
  let e := (Z.log2 a - 52)%Z in
  if (e <=? 0)%Z then z
  else
    let q := (a / 2 ^ e)%Z in
    let r := (a mod 2 ^ e)%Z in
    let half := (2 ^ (e - 1))%Z in
    let q := if (r <? half)%Z then q
             else if (half <? r)%Z then (q + 1)%Z
             else if Z.even q then q else (q + 1)%Z in
    (Z.sgn z * (q * 2 ^ e))%Z.

Definition is_blank (c : ascii) : bool :=
  let n := N_of_ascii c in
  ((9 <=? n) && (n <=? 13) || (n =? 32))%N.

Fixpoint skip_blanks (s : string) : string :=
  match s with
  | String c r => if is_blank c then skip_blanks r else s
  | EmptyString => s
  end.

(** The value of [c] as a digit in the given radix, if it is one. *)
Definition digit_of (radix : N) (c : ascii) : option N :=
  let n := N_of_ascii c in
  let v :=
    if ((48 <=? n) && (n <=? 57))%N then Some (n - 48)%N
    else if ((97 <=? n) && (n <=? 122))%N then Some (n - 87)%N
    else if ((65 <=? n) && (n <=? 90))%N then Some (n - 55)%N
    else None in
  match v with
  | Some d => if (d <? radix)%N then Some d else None
  | None => None
  end.

(** The longest prefix of digits of [s], read in the radix; [acc] is
    [None] until a digit was read. *)
Fixpoint digits (radix : N) (s : string) (acc : option N) : option N :=
  match s with
  | EmptyString => acc
  | String c r =>
      match digit_of radix c with
      | Some d =>
          digits radix r
            (Some (radix * match acc with Some a => a | None => 0 end + d)%N)
      | None => acc
      end
  end.

(** [parseInt(s)] without a radix argument (ECMAScript 5): leading blanks
    are skipped (the ASCII ones are modelled), then an optional sign, then
    [0x] or [0X] selects radix 16, then the longest prefix of digits is
    read and rounded to a double; without any digit the result is [NaN]. *)
Definition parseInt (s : string) : number :=
  let s := skip_blanks s in
  let '(neg, s) :=
    match s with
    | String "-"%char r => (true, r)
    | String "+"%char r => (false, r)
    | _ => (false, s)
    end in
  let '(radix, s) :=
    match s with
    | String "0"%char (String "x"%char r) => (16%N, r)
    | String "0"%char (String "X"%char r) => (16%N, r)
    | _ => (10%N, s)
    end in
  match digits radix s None with
  | Some n => Int (round_double (if neg : bool then - Z.of_N n else Z.of_N n))
  | None => NaN
  end.

(** [x + 1] on numbers. *)
Definition add1 (x : number) : number :=
  match x with
  | Int z => Int (round_double (z + 1))
  | NaN => NaN
  end.

(** The decimal numeral of a natural number. *)
Definition dec (n : N) : string := NilEmpty.string_of_uint (N.to_uint n).

(** ToString of a number (integers below 10^21 print in full). *)
Definition number_to_string (x : number) : string :=
  match x with
  | Int z => if (z <? 0)%Z then String "-" (dec (Z.abs_N z)) else dec (Z.to_N z)
  | NaN => "NaN"
  end.

Fixpoint drop (n : nat) (s : string) : string :=
  match n, s with
  | S k, String _ r => drop k r
  | _, _ => s
  end.

(** [s.replace(pat, rep)] with a string pattern: only the first
    occurrence of [pat] in [s] is replaced ([rep] is a numeral here, so
    it holds none of the [$] forms that [replace] expands). *)
Fixpoint replace_first (pat rep s : string) : string :=
  if String.prefix pat s then rep ++ drop (String.length pat) s
  else
    match s with
    | EmptyString => EmptyString
    | String c r => String c (replace_first pat rep r)
    end.

(** [a.join(sep)]. *)
Definition join (sep : string) (a : list string) : string := String.concat sep a.

(** [.] of a regular expression matches any character but a line end. *)
Definition is_line_end (c : ascii) : bool :=
  let n := N_of_ascii c in
  ((n =? 10) || (n =? 13))%N.

(** The text up to the first ["}"], and what follows it, when no line
    end comes before. *)
Fixpoint up_to_brace (s : string) : option (string * string) :=
  match s with
  | EmptyString => None
  | String c r =>
      if Ascii.eqb c "}" then Some (EmptyString, r)
      else if is_line_end c then None
      else
        match up_to_brace r with
        | Some (name, rest) => Some (String c name, rest)
        | None => None
        end
  end.

(** A handler either runs to its end or stops at an exception that
    nothing catches; [Throw] carries the page as it was left. *)
Inductive completion (A : Type) : Type :=
| Normal (a : A)
| Throw (a : A).

Arguments Normal {A} a.
Arguments Throw {A} a.

Definition after {A : Type} (c : completion A) : A :=
  match c with
  | Normal a => a
  | Throw a => a
  end.

Definition throws {A : Type} (c : completion A) : bool :=
  match c with
  | Normal _ => false
  | Throw _ => true
  end.

End Js.

Import Js.

(** [jQuery.substitute(str, sub)]: every match of [/\{(.+?)\}/g] in [str]
    (a brace, at least one character, lazily up to the next closing brace)
    is replaced by [sub[name]] when [name in sub], and kept otherwise.
    [sub] lists the object's own properties, which is where [build_query]
    puts [param] and [keyword]; a name [sub] does not list is taken as
    missing ([in] also finds the names every object inherits, such as
    [toString]; the patterns of this script use none, and the theorems on
    a listed key do not depend on it).  Each step takes at least one character off [str],
    so its length is fuel enough ([substitute_from_fuel]). *)
Fixpoint substitute_from (fuel : nat) (str : string) (sub : list (string * string))
  : string :=
  match fuel with
  | O => str
  | S fuel =>
      match str with
      | EmptyString => EmptyString
      | String c r =>
          let keep := String c (substitute_from fuel r sub) in
          if Ascii.eqb c "{" then
            match r with
            | String d r' =>
                if is_line_end d then keep
                else
                  match up_to_brace r' with
                  | Some (name, rest) =>
                      let key := String d name in
                      match find (fun kv => String.eqb (fst kv) key) sub with
                      | Some kv => snd kv
                      | None => String c (key ++ "}")
                      end ++ substitute_from fuel rest sub
                  | None => keep
                  end
            | EmptyString => keep
            end
          else keep
      end
  end.

Definition substitute (str : string) (sub : list (string * string)) : string :=
  substitute_from (String.length str) str sub.

(** ** The elements of the page

    The markup of the page is not part of the script; the records hold
    what the script reads and writes of its elements.  A row is a [div]
    with the [id] [query_chunk_<n>] or [not_chunk_<n>] and two children,
    read with [children('select')] and [children('input')]; the controls
    of row 0 are [#id_query-0-field], [#id_query-0-value],
    [#id_not-0-field] and [#id_not-0-value]. *)

(** Modelled from the spec: the markup of the field selector of a row,
    with its [name], its [id], the option the markup marks as selected and
    the option chosen now, which [.val()] reads. *)
Record select_el : Type := {
  sel_name : string;
  sel_id : string;
  sel_markup : string;
  sel_val : string
}.

(** Modelled from the spec: the markup of the keyword control of a row,
    with its [name], its [id] and the text typed, which [.val()] reads. *)
Record input_el : Type := {
  in_name : string;
  in_id : string;
  in_val : string
}.

(** Modelled from the spec: the markup of a row, a [div] with its [id],
    whether it has the class [removable], and its two children. *)
Record chunk : Type := {
  chunk_id : string;
  removable : bool;
  select : select_el;
  input : input_el
}.

(** Modelled from the spec: the markup of the page, as far as the script
    reaches it: the rows of each class in document order, the operator
    select and the field of the compiled query. *)
Record page : Type := {
  query_chunks : list chunk;   (* [$('.query_chunk')], in document order *)
  not_chunks : list chunk;     (* [$('.not_chunk')], in document order *)
  id_operator : string;        (* [$('#id_operator').val()] *)
  id_q : string                (* [$('#id_q').val()] *)
}.

Definition set_q (st : page) (q : string) : page :=
  {| query_chunks := query_chunks st; not_chunks := not_chunks st;
     id_operator := id_operator st; id_q := q |}.

Definition set_operator (st : page) (op : string) : page :=
  {| query_chunks := query_chunks st; not_chunks := not_chunks st;
     id_operator := op; id_q := id_q st |}.

Definition set_query_chunks (st : page) (rows : list chunk) : page :=
  {| query_chunks := rows; not_chunks := not_chunks st;
     id_operator := id_operator st; id_q := id_q st |}.

Definition set_not_chunks (st : page) (rows : list chunk) : page :=
  {| query_chunks := query_chunks st; not_chunks := rows;
     id_operator := id_operator st; id_q := id_q st |}.

Definition set_removable (b : bool) (c : chunk) : chunk :=
  {| chunk_id := chunk_id c; removable := b; select := select c; input := input c |}.

Definition set_keyword (text : string) (c : chunk) : chunk :=
  {| chunk_id := chunk_id c; removable := removable c; select := select c;
     input := {| in_name := in_name (input c); in_id := in_id (input c);
                 in_val := text |} |}.

Definition set_field (value : string) (c : chunk) : chunk :=
  {| chunk_id := chunk_id c; removable := removable c;
     select := {| sel_name := sel_name (select c); sel_id := sel_id (select c);
                  sel_markup := sel_markup (select c); sel_val := value |};
     input := input c |}.

(** ** build_query *)

Definition part_pattern : string := "{param}:{keyword}".
Definition not_pattern : string := "-{param}:{keyword}".

(** The object [{param: ..., keyword: ...}] made for a row. *)
Definition obj (c : chunk) : list (string * string) :=
  [("param", sel_val (select c)); ("keyword", in_val (input c))].

(** One pass of [each] over the rows, pushing the text of every row whose
    input is not empty. *)
Definition push_operands (pattern : string) (rows : list chunk) : list string :=
  fold_left
    (fun operands c =>
       if String.eqb (in_val (input c)) "" then operands
       else (operands ++ [substitute pattern (obj c)])%list)
    rows [].

(** [query_string] after the regular query fields were added. *)
Definition query_part (st : page) : string :=
  "" ++ join (" " ++ id_operator st ++ " ") (push_operands part_pattern (query_chunks st)).

Definition not_operands (st : page) : list string :=
  push_operands not_pattern (not_chunks st).

(** [query_string] at the end of [build_query]. *)
Definition query_string (st : page) : string :=
  let query_string := query_part st in
  if (0 <? List.length (not_operands st))%nat then
    (if negb (String.eqb query_string "") then query_string ++ " " else query_string)
      ++ join " " (not_operands st)
  else query_string.

Definition build_query (st : page) : completion page :=
  Normal (set_q st (query_string st)).

(** ** increment_ids *)

Definition rename_select (from to : string) (e : select_el) : select_el :=
  {| sel_name := replace_first from to (sel_name e);
     sel_id := replace_first from to (sel_id e);
     sel_markup := sel_markup e; sel_val := sel_val e |}.

Definition rename_input (from to : string) (e : input_el) : input_el :=
  {| in_name := replace_first from to (in_name e);
     in_id := replace_first from to (in_id e);
     in_val := in_val e |}.

(** [from] of [increment_ids]: the third piece of the row's [id]. *)
Definition id_from (el : chunk) : string :=
  to_string (item 2 (split_on "_" (chunk_id el))).

Definition increment_ids (el : chunk) : chunk :=
  let from := id_from el in
  let to := number_to_string (add1 (parseInt from)) in
  let old_id := chunk_id el in
  {| chunk_id := replace_first from to old_id;
     removable := removable el;
     select := rename_select from to (select el);
     input := rename_input from to (input el) |}.

(** ** The handlers installed by init *)

(** [$('.query_chunk:first').addClass('removable')] and [removeClass]. *)
Definition first_set_removable (b : bool) (rows : list chunk) : list chunk :=
  match rows with
  | [] => []
  | c :: r => set_removable b c :: r
  end.

(** [.clone(true)] of a row: a copy of the element with its attributes and
    handlers.  The text of an input is carried over; the option chosen in
    a select is not, the copy shows the option its markup selects (jQuery
    API, [.clone()]). *)
Definition clone (c : chunk) : chunk :=
  {| chunk_id := chunk_id c; removable := removable c;
     select := {| sel_name := sel_name (select c); sel_id := sel_id (select c);
                  sel_markup := sel_markup (select c);
                  sel_val := sel_markup (select c) |};
     input := input c |}.

(** [.last()]: the last row, if there is one. *)
Fixpoint last_of (rows : list chunk) : option chunk :=
  match rows with
  | [] => None
  | [c] => Some c
  | _ :: r => last_of r
  end.

Fixpoint on_last (f : chunk -> chunk) (rows : list chunk) : list chunk :=
  match rows with
  | [] => []
  | [c] => [f c]
  | c :: r => c :: on_last f r
  end.

(** The body shared by the two add handlers, on the rows of their class. *)
Definition add_part (rows : list chunk) : completion (list chunk) :=
  let rows := first_set_removable true rows in
  match last_of rows with
  | Some last =>
      let cloned := clone last in
      let cloned := set_keyword "" cloned in
      let rows := (rows ++ [cloned])%list in
      Normal (on_last increment_ids rows)
  | None =>
      (* no row to clone: [increment_ids] gets an empty set, whose
         [attr('id')] is undefined, and [.split] of it throws *)
      Throw rows
  end.

Definition add_query_part_click (st : page) : completion page :=
  match add_part (query_chunks st) with
  | Normal rows => Normal (set_query_chunks st rows)
  | Throw rows => Throw (set_query_chunks st rows)
  end.

Definition add_not_part_click (st : page) : completion page :=
  match add_part (not_chunks st) with
  | Normal rows => Normal (set_not_chunks st rows)
  | Throw rows => Throw (set_not_chunks st rows)
  end.

(** [$('div#' + id).remove()]: every [div] with this [id] leaves the page,
    whatever its class (for an [id] made of letters, digits, [-] and [_],
    see [name_ok]). *)
Definition remove_div (id : string) (rows : list chunk) : list chunk :=
  filter (fun c => negb (String.eqb (chunk_id c) id)) rows.

Definition remove_divs (id : string) (st : page) : page :=
  {| query_chunks := remove_div id (query_chunks st);
     not_chunks := remove_div id (not_chunks st);
     id_operator := id_operator st; id_q := id_q st |}.

Definition single_not_removable (rows : list chunk) : list chunk :=
  if (List.length rows =? 1)%nat then first_set_removable false rows else rows.

(** The click handler of [a.remove_btn]; [anchor_id] is the [id] of the
    anchor clicked. *)
Definition remove_btn_click (anchor_id : string) (st : page) : completion page :=
  let remove_index := to_string (item 1 (split_on "_" anchor_id)) in
  let st := remove_divs ("query_chunk_" ++ remove_index) st in
  let st := set_query_chunks st (single_not_removable (query_chunks st)) in
  build_query st.

(** The click handler of [a.not_remove_btn]. *)
Definition not_remove_btn_click (anchor_id : string) (st : page) : completion page :=
  let remove_index := to_string (item 2 (split_on "_" anchor_id)) in
  let st := remove_divs ("not_chunk_" ++ remove_index) st in
  let st := set_not_chunks st (single_not_removable (not_chunks st)) in
  Normal st.

(** ** Edits of the controls

    [init] binds [build_query] to [change] and [keyup] of the input of row 0
    of each kind and to [change] of its select; [clone(true)] copies the
    handlers to every row made from it.  An edit of a control of a row is
    the change of its value followed by [build_query]; there is no control
    to edit at a position past the last row.  Nothing is bound to
    [#id_operator]: choosing the other operator only changes the select. *)

Inductive kind : Type := Query | Not.

Definition rows_of (k : kind) (st : page) : list chunk :=
  match k with
  | Query => query_chunks st
  | Not => not_chunks st
  end.

Definition set_rows (k : kind) (st : page) (rows : list chunk) : page :=
  match k with
  | Query => set_query_chunks st rows
  | Not => set_not_chunks st rows
  end.

Fixpoint update_at (pos : nat) (f : chunk -> chunk) (rows : list chunk) : list chunk :=
  match pos, rows with
  | _, [] => []
  | O, c :: r => f c :: r
  | S p, c :: r => c :: update_at p f r
  end.

Definition control_edit (k : kind) (pos : nat) (f : chunk -> chunk) (st : page)
  : completion page :=
  if (pos <? List.length (rows_of k st))%nat
  then build_query (set_rows k st (update_at pos f (rows_of k st)))
  else Normal st.

Definition operator_change (value : string) (st : page) : completion page :=
  Normal (set_operator st value).

(** ** The page as a state machine *)

Inductive event : Type :=
| AddQueryPart
| AddNotPart
| RemoveBtn (anchor_id : string)
| NotRemoveBtn (anchor_id : string)
| KeywordEdit (k : kind) (pos : nat) (text : string)
| FieldEdit (k : kind) (pos : nat) (value : string)
| OperatorChange (value : string).

Definition handle (e : event) (st : page) : completion page :=
  match e with
  | AddQueryPart => add_query_part_click st
  | AddNotPart => add_not_part_click st
  | RemoveBtn a => remove_btn_click a st
  | NotRemoveBtn a => not_remove_btn_click a st
  | KeywordEdit k pos text => control_edit k pos (set_keyword text) st
  | FieldEdit k pos value => control_edit k pos (set_field value) st
  | OperatorChange value => operator_change value st
  end.

(** An exception ends the handler, not the page: the next event finds the
    page as the handler left it. *)
Definition step (st : page) (e : event) : page := after (handle e st).

Definition run (evs : list event) (st : page) : page := fold_left step evs st.

(** The pages after each event of a run, the starting page first. *)
Fixpoint trace (evs : list event) (st : page) : list page :=
  match evs with
  | [] => [st]
  | e :: r => st :: trace r (step st e)
  end.

(** Modelled from the spec: the markup of row 0 of a kind, with an empty
    keyword and without the class [removable]. *)
Definition first_row (div_id control : string) (field : string) : chunk :=
  {| chunk_id := div_id ++ "0";
     removable := false;
     select := {| sel_name := control ++ "-0-field";
                  sel_id := "id_" ++ control ++ "-0-field";
                  sel_markup := field; sel_val := field |};
     input := {| in_name := control ++ "-0-value";
                 in_id := "id_" ++ control ++ "-0-value";
                 in_val := "" |} |}.

(** Modelled from the spec: the page when [init] runs, not part of the
    script: one row of each kind, numbered 0, and an empty [#id_q]. *)
Definition initial_page (field operator : string) : page :=
  {| query_chunks := [first_row "query_chunk_" "query" field];
     not_chunks := [first_row "not_chunk_" "not" field];
     id_operator := operator;
     id_q := "" |}.

(** ** The numbers in the row identifiers *)

(** The index of a row, read off its [id] the way [increment_ids] reads it. *)
Definition row_index (c : chunk) : number := parseInt (id_from c).

Definition indices (rows : list chunk) : list number := map row_index rows.

(** [0, 1, ..., n-1] as numbers. *)
Definition upto (n : nat) : list number := map (fun i => Int (Z.of_nat i)) (seq 0 n).

(** The indices are exactly [0 .. length-1] in display order. *)
Definition dense (rows : list chunk) : Prop := indices rows = upto (List.length rows).

(** Each index is an integer above the one before it. *)
Fixpoint ascending_from (lo : Z) (l : list number) : Prop :=
  match l with
  | [] => True
  | Int z :: r => (lo < z)%Z /\ ascending_from z r
  | NaN :: _ => False
  end.

Definition ascending (rows : list chunk) : Prop := ascending_from (-1) (indices rows).

(** Characters of the names a selector [div#name] can carry as they are. *)
Definition name_char (c : ascii) : bool :=
  let n := N_of_ascii c in
  ((48 <=? n) && (n <=? 57) || (65 <=? n) && (n <=? 90)
   || (97 <=? n) && (n <=? 122) || (n =? 45) || (n =? 95))%N.

Fixpoint all_chars (p : ascii -> bool) (s : string) : bool :=
  match s with
  | EmptyString => true
  | String c r => p c && all_chars p r
  end.

Definition name_ok (s : string) : bool := all_chars name_char s.

Definition is_digit (c : ascii) : bool :=
  let n := N_of_ascii c in ((48 <=? n) && (n <=? 57))%N.

(** The two kinds of row and the text their [id]s start with. *)
Definition div_prefix (k : kind) : string :=
  match k with
  | Query => "query_chunk_"
  | Not => "not_chunk_"
  end.

Definition id_of (k : kind) (n : N) : string := div_prefix k ++ dec n.

(** Up to [2^53] every integer is a double; [2^53 + 1] is not. *)
Definition exact_limit : N := 2 ^ 53.

(** The rows of kind [k] carry the [id]s the markup and [increment_ids]
    give them, [div_prefix k] followed by the numeral of a number up to
    [b], and the numbers go up along the page. *)
Definition rows_ok (k : kind) (b : N) (rows : list chunk) : Prop :=
  (exists ns, map chunk_id rows = map (id_of k) ns /\ Forall (fun n => (n <= b)%N) ns)
  /\ ascending rows.

Definition page_ok (b : N) (st : page) : Prop :=
  rows_ok Query b (query_chunks st) /\ rows_ok Not b (not_chunks st).

(** The index piece of the [id] of a remove anchor of kind [k]. *)
Definition remove_index (k : kind) (anchor_id : string) : string :=
  match k with
  | Query => to_string (item 1 (split_on "_" anchor_id))
  | Not => to_string (item 2 (split_on "_" anchor_id))
  end.

(** The [id] of the [div] a click on the remove anchor takes away. *)
Definition target_id (k : kind) (anchor_id : string) : string :=
  div_prefix k ++ remove_index k anchor_id.

Definition remove_click (k : kind) (anchor_id : string) (st : page) : completion page :=
  match k with
  | Query => remove_btn_click anchor_id st
  | Not => not_remove_btn_click anchor_id st
  end.

Definition add_click (k : kind) (st : page) : completion page :=
  match k with
  | Query => add_query_part_click st
  | Not => add_not_part_click st
  end.

(** The events of a run stay where the model follows the script: the
    selector of a remove click is [div#] and a plain name. *)
Definition event_ok (e : event) : bool :=
  match e with
  | RemoveBtn a => name_ok (remove_index Query a)
  | NotRemoveBtn a => name_ok (remove_index Not a)
  | _ => true
  end.

(** ** The compiler in the words of the specification *)

Definition has_keyword (c : chunk) : bool := negb (String.eqb (in_val (input c)) "").

Definition include_token (c : chunk) : string :=
  sel_val (select c) ++ ":" ++ in_val (input c).

Definition exclude_token (c : chunk) : string :=
  "-" ++ sel_val (select c) ++ ":" ++ in_val (input c).

Definition include_part (combinator : string) (clauses : list chunk) : string :=
  join (" " ++ combinator ++ " ") (map include_token (filter has_keyword clauses)).

Definition exclude_part (clauses : list chunk) : string :=
  join " " (map exclude_token (filter has_keyword clauses)).

Definition compiled (includePart excludePart : string) : string :=
  if String.eqb excludePart "" then includePart
  else if String.eqb includePart "" then excludePart
       else includePart ++ " " ++ excludePart.

(** The text [build_query] joins from the exclude rows. *)
Definition not_part (st : page) : string := join " " (not_operands st).

(** The row an append makes from the last row [l]. *)
Definition appended (l : chunk) : chunk := increment_ids (set_keyword "" (clone l)).

(** The index read off an [id]; [row_index c] is [index_of_id (chunk_id c)]. *)
Definition index_of_id (id : string) : number :=
  parseInt (to_string (item 2 (split_on "_" id))).

(** A remove click that takes away no row of its kind but the last. *)
Definition takes_last_only (e : event) (st : page) : bool :=
  let spares (k : kind) (a : string) :=
    forallb (fun c => negb (String.eqb (chunk_id c) (target_id k a)))
      (removelast (rows_of k st)) in
  match e with
  | RemoveBtn a => spares Query a
  | NotRemoveBtn a => spares Not a
  | _ => true
  end.

(** Along a run, every remove click takes away the last row or none. *)
Fixpoint removes_last_rows_only (evs : list event) (st : page) : bool :=
  match evs with
  | [] => true
  | e :: r => takes_last_only e st && removes_last_rows_only r (step st e)
  end.

Definition page_ascending (st : page) : Prop :=
  ascending (query_chunks st) /\ ascending (not_chunks st).

Definition page_dense (st : page) : Prop :=
  dense (query_chunks st) /\ dense (not_chunks st).

(** A row that is alone in its kind is not marked removable. *)
Definition alone_not_removable (rows : list chunk) : Prop :=
  match rows with
  | [c] => removable c = false
  | _ => True
  end.

(** Every row a remove click would take away is marked removable. *)
Definition hits_removable (e : event) (st : page) : bool :=
  let marked (k : kind) (a : string) :=
    forallb (fun c => implb (String.eqb (chunk_id c) (target_id k a)) (removable c))
      (rows_of k st) in
  match e with
  | RemoveBtn a => marked Query a
  | NotRemoveBtn a => marked Not a
  | _ => true
  end.

Fixpoint clicks_hit_removable (evs : list event) (st : page) : bool :=
  match evs with
  | [] => true
  | e :: r => hits_removable e st && clicks_hit_removable r (step st e)
  end.

(** Each kind has a row, and a row alone is not marked removable. *)
Definition rows_kept (st : page) : Prop :=
  forall k, rows_of k st <> [] /\ alone_not_removable (rows_of k st).

(** No [div] of the page has this [id]. *)
Definition absent (id : string) (st : page) : bool :=
  forallb (fun c => negb (String.eqb (chunk_id c) id)) (query_chunks st ++ not_chunks st)%list.

(** A natural number as a JavaScript number. *)
Definition int_of_N (n : N) : number := Int (Z.of_N n).

(** The other kind of row. *)
Definition other (k : kind) : kind :=
  match k with
  | Query => Not
  | Not => Query
  end.

(** [#id_q] holds what [build_query] would write now. *)
Definition in_sync (st : page) : Prop := id_q st = query_string st.

(** ** Notions for the properties of [jQuery.substitute] and of the rows *)

(** The text holds no opening brace. *)
Definition no_brace (s : string) : bool :=
  all_chars (fun c => negb (Ascii.eqb c "{")) s.

(** The text holds no closing brace. *)
Definition no_closing_brace (s : string) : bool :=
  all_chars (fun c => negb (Ascii.eqb c "}")) s.

(** A placeholder name [/\{(.+?)\}/] matches as a whole: not empty, and
    without closing brace and line end.  The name is kept to ASCII, where
    a character of the script's string is one character here and the line
    ends are LF and CR. *)
Definition key_ok (key : string) : bool :=
  negb (String.eqb key "")
  && all_chars (fun c => (N_of_ascii c <? 128)%N
                         && negb (Ascii.eqb c "}") && negb (is_line_end c)) key.

(** [sub[key]] for a key [sub] lists: there [key in sub] holds, and the
    listed value comes before any inherited one. *)
Definition lookup (sub : list (string * string)) (key : string) : option string :=
  option_map snd (find (fun kv => String.eqb (fst kv) key) sub).

(** The word the controls of a kind of row are named after. *)
Definition control_of (k : kind) : string :=
  match k with
  | Query => "query"
  | Not => "not"
  end.

(** The row of kind [k] carries the number [n] in the [id] of its [div]
    and in the [name] and [id] of both controls, in the shape of row 0. *)
Definition row_at (k : kind) (n : N) (c : chunk) : Prop :=
  chunk_id c = id_of k n
  /\ sel_name (select c) = control_of k ++ "-" ++ dec n ++ "-field"
  /\ sel_id (select c) = "id_" ++ control_of k ++ "-" ++ dec n ++ "-field"
  /\ in_name (input c) = control_of k ++ "-" ++ dec n ++ "-value"
  /\ in_id (input c) = "id_" ++ control_of k ++ "-" ++ dec n ++ "-value".

(** Every row of the page carries one number, up to [b], throughout. *)
Definition rows_named (b : N) (st : page) : Prop :=
  forall k, Forall (fun c => exists n, (n <= b)%N /\ row_at k n c) (rows_of k st).

(** With two rows or more of a kind, each of them is marked removable. *)
Definition crowd_removable (rows : list chunk) : Prop :=
  (2 <= List.length rows)%nat -> Forall (fun c => removable c = true) rows.

Definition crowd_marked (st : page) : Prop :=
  forall k, crowd_removable (rows_of k st).

(** The events whose handlers end with [build_query] or leave what it
    would write: all but the exclude remove click and the change of the
    operator. *)
Definition keeps_sync (e : event) : bool :=
  match e with
  | NotRemoveBtn _ | OperatorChange _ => false
  | _ => true
  end.

(** What [build_query] reads of a row: the field and the keyword. *)
Definition clause (c : chunk) : string * string :=
  (sel_val (select c), in_val (input c)).

(** * Facts and theorems *)

(** Closed statements are settled by evaluation of the handlers. *)
Ltac evaluate :=
  cbv zeta;
  repeat match goal with |- _ /\ _ => split end;
  try (vm_compute; reflexivity).

Lemma append_empty_r (s : string) : s ++ "" = s.
Proof. induction s as [|c s IH]; simpl; [reflexivity | now rewrite IH]. Qed.

Lemma append_assoc (a b c : string) : (a ++ b) ++ c = a ++ (b ++ c).
Proof. induction a as [|x a IH]; simpl; [reflexivity | now rewrite IH]. Qed.

Lemma split_on_without (sep : ascii) (s : string) :
  all_chars (fun c => negb (Ascii.eqb c sep)) s = true -> split_on sep s = [s].
Proof.
  induction s as [|c s IH]; simpl; [reflexivity|].
  intros H. apply andb_prop in H as [Hc Hs].
  rewrite (IH Hs). apply negb_true_iff in Hc. now rewrite Hc.
Qed.

Lemma uint_digits (d : Decimal.uint) :
  all_chars is_digit (NilEmpty.string_of_uint d) = true.
Proof. induction d; simpl; auto. Qed.

Lemma digits_weaken (p q : ascii -> bool) (s : string) :
  (forall c, p c = true -> q c = true) ->
  all_chars p s = true -> all_chars q s = true.
Proof.
  intros Hpq. induction s as [|c s IH]; simpl; [reflexivity|].
  intros H. apply andb_prop in H as [Hc Hs].
  now rewrite (Hpq _ Hc), (IH Hs).
Qed.

Lemma digit_cases (c : ascii) :
  is_digit c = true ->
  c = "0"%char \/ c = "1"%char \/ c = "2"%char \/ c = "3"%char \/ c = "4"%char \/
  c = "5"%char \/ c = "6"%char \/ c = "7"%char \/ c = "8"%char \/ c = "9"%char.
Proof.
  destruct c as [[|] [|] [|] [|] [|] [|] [|] [|]]; cbv; intros H;
    try discriminate H; tauto.
Qed.

Lemma digits_acc_pos (d : Decimal.uint) (p : positive) :
  digits 10 (NilEmpty.string_of_uint d) (Some (Npos p)) = Some (Npos (Pos.of_uint_acc d p)).
Proof.
  revert p.
  induction d; intros p; cbn [NilEmpty.string_of_uint digits Pos.of_uint_acc];
    try reflexivity;
    match goal with
    | |- context [digit_of 10 ?c] =>
        let v := eval vm_compute in (digit_of 10 c) in
        change (digit_of 10 c) with v
    end;
    cbv iota beta; rewrite <- IHd; do 2 f_equal; lia.
Qed.

Lemma digits_uint (d : Decimal.uint) :
  digits 10 (NilEmpty.string_of_uint d) (Some 0%N) = Some (Pos.of_uint d).
Proof.
  induction d; cbn [NilEmpty.string_of_uint digits Pos.of_uint];
    try reflexivity;
    match goal with
    | |- context [digit_of 10 ?c] =>
        let v := eval vm_compute in (digit_of 10 c) in
        change (digit_of 10 c) with v
    end;
    cbv iota beta; [exact IHd | apply digits_acc_pos ..].
Qed.

Lemma parseInt_digit_string (s : string) :
  s <> "" -> all_chars is_digit s = true ->
  parseInt s = match digits 10 s (Some 0%N) with
               | Some n => Int (round_double (Z.of_N n))
               | None => NaN
               end.
Proof.
  destruct s as [|c s]; [congruence | intros _ H].
  cbn [all_chars] in H. apply andb_prop in H as [Hc Hs].
  destruct s as [|c2 s].
  - destruct (digit_cases c Hc) as [E|[E|[E|[E|[E|[E|[E|[E|[E|E]]]]]]]]];
      subst c; reflexivity.
  - cbn [all_chars] in Hs. apply andb_prop in Hs as [Hc2 Hs].
    destruct (digit_cases c Hc) as [E|[E|[E|[E|[E|[E|[E|[E|[E|E]]]]]]]]];
      subst c; try reflexivity.
    destruct (digit_cases c2 Hc2) as [E|[E|[E|[E|[E|[E|[E|[E|[E|E]]]]]]]]];
      subst c2; reflexivity.
Qed.

Lemma round_double_exact (z : Z) :
  (Z.abs z <= Z.of_N exact_limit)%Z -> round_double z = z.
Proof.
  intros H. unfold round_double.
  destruct (Z.leb_spec (Z.log2 (Z.abs z) - 52) 0) as [_|He]; [reflexivity|].
  assert (Ha : (Z.abs z = 2 ^ 53)%Z).
  { change (Z.of_N exact_limit) with (2 ^ 53)%Z in H.
    destruct (Z.lt_ge_cases (Z.abs z) (2 ^ 53)) as [Hlt|Hge]; [|lia].
    destruct (Z.eq_dec (Z.abs z) 0) as [E0|N0].
    - rewrite E0 in He. cbn in He. lia.
    - apply Z.log2_lt_pow2 in Hlt; lia. }
  assert (Hz : z = (2 ^ 53)%Z \/ z = (- 2 ^ 53)%Z) by lia.
  destruct Hz as [-> | ->]; vm_compute; reflexivity.
Qed.

Lemma dec_nonempty (n : N) : dec n <> "".
Proof.
  unfold dec. destruct n as [|p]; [discriminate|].
  cbn [N.to_uint]. pose proof (DecimalPos.Unsigned.to_uint_nonnil p) as H.
  destruct (Pos.to_uint p); [congruence | discriminate ..].
Qed.

Lemma dec_digits (n : N) : all_chars is_digit (dec n) = true.
Proof. apply uint_digits. Qed.

Lemma parseInt_dec (n : N) :
  (n <= exact_limit)%N -> parseInt (dec n) = Int (Z.of_N n).
Proof.
  intros Hn.
  rewrite parseInt_digit_string by (apply dec_nonempty || apply dec_digits).
  unfold dec. rewrite digits_uint.
  change (Pos.of_uint (N.to_uint n)) with (N.of_uint (N.to_uint n)).
  rewrite DecimalN.Unsigned.of_to, round_double_exact; [reflexivity | lia].
Qed.

Lemma number_to_string_succ (n : N) :
  (n < exact_limit)%N -> number_to_string (add1 (Int (Z.of_N n))) = dec (n + 1).
Proof.
  intros Hn. cbn [add1 number_to_string].
  rewrite round_double_exact by lia.
  destruct (Z.ltb_spec (Z.of_N n + 1) 0) as [H|H]; [lia|].
  f_equal. lia.
Qed.

(** At [2^53] the sum [+ 1] is rounded back: [increment_ids] would give
    the copy the number of the row it was cloned from. *)
Lemma add1_at_limit :
  number_to_string (add1 (parseInt (dec exact_limit))) = dec exact_limit.
Proof. vm_compute. reflexivity. Qed.

Lemma prefix_refl_app (a b : string) : String.prefix a (a ++ b) = true.
Proof.
  induction a as [|x a IH]; simpl; [now destruct b|].
  destruct (ascii_dec x x); [exact IH | congruence].
Qed.

Lemma drop_length_app (a b : string) : drop (String.length a) (a ++ b) = b.
Proof. induction a as [|x a IH]; simpl; [now destruct b | exact IH]. Qed.

Lemma prefix_head_differs (c x : ascii) (a b : string) :
  x <> c -> String.prefix (String c a) (String x b) = false.
Proof. intros H. simpl. destruct (ascii_dec c x); [congruence | reflexivity]. Qed.

Lemma replace_first_eq (pat rep s : string) :
  replace_first pat rep s =
  if String.prefix pat s then rep ++ drop (String.length pat) s
  else match s with
       | EmptyString => EmptyString
       | String c r => String c (replace_first pat rep r)
       end.
Proof. destruct s; reflexivity. Qed.

(** The first occurrence of a numeral that follows digit-free text is the
    numeral itself. *)
Lemma replace_first_numeral (d r pre post : string) :
  d <> "" -> all_chars is_digit d = true ->
  all_chars (fun c => negb (is_digit c)) pre = true ->
  replace_first d r (pre ++ d ++ post) = pre ++ r ++ post.
Proof.
  intros Hd Hdig Hpre.
  destruct d as [|c d]; [congruence|].
  cbn [all_chars] in Hdig. apply andb_prop in Hdig as [Hc _].
  induction pre as [|x pre IH].
  - cbn [append]. change (String c (d ++ post)) with (String c d ++ post).
    now rewrite replace_first_eq, prefix_refl_app, drop_length_app.
  - cbn [all_chars] in Hpre. apply andb_prop in Hpre as [Hx Hpre].
    change ((String x pre) ++ String c d ++ post)
      with (String x (pre ++ String c d ++ post)).
    rewrite replace_first_eq, prefix_head_differs.
    + now rewrite (IH Hpre).
    + intros ->. rewrite Hc in Hx. discriminate.
Qed.

Lemma dec_no_underscore (n : N) :
  all_chars (fun c => negb (Ascii.eqb c "_")) (dec n) = true.
Proof.
  apply digits_weaken with (p := is_digit); [|apply dec_digits].
  intros c Hc.
  destruct (digit_cases c Hc) as [E|[E|[E|[E|[E|[E|[E|[E|[E|E]]]]]]]]];
    subst c; reflexivity.
Qed.

Lemma id_from_id_of (k : kind) (n : N) (c : chunk) :
  chunk_id c = id_of k n -> id_from c = dec n.
Proof.
  unfold id_from, id_of. intros ->.
  pose proof (split_on_without "_" (dec n) (dec_no_underscore n)) as E.
  destruct k; cbn [div_prefix append split_on]; rewrite E; reflexivity.
Qed.

Lemma row_index_id_of (k : kind) (n : N) (c : chunk) :
  (n <= exact_limit)%N -> chunk_id c = id_of k n -> row_index c = Int (Z.of_N n).
Proof.
  intros Hn H. unfold row_index. rewrite (id_from_id_of k n c H).
  now apply parseInt_dec.
Qed.

Lemma increment_ids_id_of (k : kind) (n : N) (c : chunk) :
  (n < exact_limit)%N ->
  chunk_id c = id_of k n -> chunk_id (increment_ids c) = id_of k (n + 1).
Proof.
  intros Hn H. unfold increment_ids. cbn [chunk_id].
  rewrite (id_from_id_of k n c H), parseInt_dec by lia.
  rewrite number_to_string_succ by exact Hn. rewrite H.
  unfold id_of.
  rewrite <- (append_empty_r (dec n)) at 2.
  rewrite replace_first_numeral.
  - now rewrite append_empty_r.
  - apply dec_nonempty.
  - apply dec_digits.
  - destruct k; reflexivity.
Qed.

(** *** build_query *)

Lemma up_to_brace_shorter (s name rest : string) :
  up_to_brace s = Some (name, rest) -> (String.length rest < String.length s)%nat.
Proof.
  revert name. induction s as [|c s IH]; intros name; cbn [up_to_brace]; [discriminate|].
  destruct (Ascii.eqb c "}").
  - intros [= _ <-]. cbn. lia.
  - destruct (is_line_end c); [discriminate|].
    destruct (up_to_brace s) as [[name' rest']|]; [|discriminate].
    intros [= _ <-]. specialize (IH name' eq_refl). cbn [String.length]. lia.
Qed.

(** The length of the text is fuel enough: more fuel gives the same. *)
Lemma substitute_from_fuel (sub : list (string * string)) :
  forall (fuel fuel' : nat) (str : string),
    (String.length str <= fuel)%nat -> (String.length str <= fuel')%nat ->
    substitute_from fuel str sub = substitute_from fuel' str sub.
Proof.
  induction fuel as [|fuel IH]; intros fuel' str H H'.
  - destruct str; [now destruct fuel' | cbn in H; lia].
  - destruct fuel' as [|fuel']; [destruct str; [reflexivity | cbn in H'; lia]|].
    destruct str as [|c r]; [reflexivity|].
    cbn [String.length] in H, H'. cbn [substitute_from].
    assert (K : substitute_from fuel r sub = substitute_from fuel' r sub)
      by (apply IH; lia).
    rewrite K. destruct (Ascii.eqb c "{"); [|reflexivity].
    destruct r as [|d r']; [reflexivity|].
    destruct (is_line_end d); [reflexivity|].
    destruct (up_to_brace r') as [[name rest]|] eqn:U; [|reflexivity].
    apply up_to_brace_shorter in U. cbn [String.length] in H, H'.
    f_equal. apply IH; lia.
Qed.

Lemma substitute_part (c : chunk) : substitute part_pattern (obj c) = include_token c.
Proof.
  unfold include_token. cbv [substitute part_pattern obj].
  cbn. now rewrite append_empty_r.
Qed.

Lemma substitute_not (c : chunk) : substitute not_pattern (obj c) = exclude_token c.
Proof.
  unfold exclude_token. cbv [substitute not_pattern obj].
  cbn. now rewrite append_empty_r.
Qed.

Lemma push_operands_filter (pattern : string) (rows : list chunk) :
  push_operands pattern rows
  = map (fun c => substitute pattern (obj c)) (filter has_keyword rows).
Proof.
  unfold push_operands.
  enough (G : forall acc,
             fold_left
               (fun operands c =>
                  if String.eqb (in_val (input c)) "" then operands
                  else (operands ++ [substitute pattern (obj c)])%list) rows acc
             = (acc ++ map (fun c => substitute pattern (obj c))
                        (filter has_keyword rows))%list)
    by apply (G []).
  induction rows as [|c rows IH]; intros acc; cbn [fold_left filter map].
  - now rewrite app_nil_r.
  - unfold has_keyword at 1.
    destruct (String.eqb (in_val (input c)) ""); cbn [negb map]; rewrite IH.
    + reflexivity.
    + now rewrite <- app_assoc.
Qed.

Lemma query_part_spec (st : page) :
  query_part st = include_part (id_operator st) (query_chunks st).
Proof.
  unfold query_part, include_part. cbn [append].
  rewrite push_operands_filter. f_equal.
  apply map_ext. exact substitute_part.
Qed.

Lemma not_part_spec (st : page) : not_part st = exclude_part (not_chunks st).
Proof.
  unfold not_part, not_operands, exclude_part.
  rewrite push_operands_filter. f_equal.
  apply map_ext. exact substitute_not.
Qed.

Lemma join_exclude_tokens_empty (sep : string) (rows : list chunk) :
  String.eqb (join sep (map exclude_token rows)) ""
  = negb (0 <? List.length (map exclude_token rows))%nat.
Proof.
  destruct rows as [|c [|c' rows]]; reflexivity.
Qed.

Lemma query_string_compiled (st : page) :
  query_string st = compiled (query_part st) (not_part st).
Proof.
  unfold query_string, compiled.
  assert (E : String.eqb (not_part st) ""
              = negb (0 <? List.length (not_operands st))%nat).
  { unfold not_part, not_operands. rewrite push_operands_filter.
    rewrite (map_ext _ _ substitute_not). apply join_exclude_tokens_empty. }
  rewrite E. fold (not_part st).
  destruct (0 <? List.length (not_operands st))%nat; cbn [negb]; [|reflexivity].
  destruct (String.eqb (query_part st) "") eqn:Q; cbn [negb].
  - apply String.eqb_eq in Q. now rewrite Q.
  - apply append_assoc.
Qed.

Lemma filter_has_keyword_none (rows : list chunk) :
  Forall (fun c => in_val (input c) = "") rows -> filter has_keyword rows = [].
Proof.
  induction 1 as [|c rows Hc _ IH]; [reflexivity|].
  cbn [filter]. unfold has_keyword at 1. now rewrite Hc.
Qed.

(** *** Rows and the add handlers *)

Lemma on_last_snoc (f : chunk -> chunk) (rows : list chunk) (c : chunk) :
  on_last f (rows ++ [c])%list = (rows ++ [f c])%list.
Proof.
  induction rows as [|a rows IH]; [reflexivity|].
  cbn [app on_last]. rewrite IH.
  destruct rows; reflexivity.
Qed.

Lemma last_of_snoc (rows : list chunk) (c : chunk) :
  last_of (rows ++ [c])%list = Some c.
Proof.
  induction rows as [|a rows IH]; [reflexivity|].
  cbn [app last_of]. rewrite IH. destruct rows; reflexivity.
Qed.

Lemma last_of_some (rows : list chunk) :
  rows <> [] -> exists front l, rows = (front ++ [l])%list.
Proof.
  intros H. destruct (exists_last H) as [front [l E]]. now exists front, l.
Qed.

Lemma add_part_snoc (front : list chunk) (l : chunk) :
  let rows := first_set_removable true (front ++ [l])%list in
  exists front' l',
    rows = (front' ++ [l'])%list
    /\ List.length front' = List.length front
    /\ chunk_id l' = chunk_id l /\ select l' = select l /\ input l' = input l
    /\ map chunk_id front' = map chunk_id front
    /\ add_part (front ++ [l])%list = Normal (rows ++ [appended l'])%list.
Proof.
  cbn zeta. unfold add_part.
  destruct front as [|a front]; cbn [app first_set_removable].
  - exists [], (set_removable true l). cbn [app last_of].
    repeat split; reflexivity.
  - exists (set_removable true a :: front), l.
    change (set_removable true a :: (front ++ [l])%list)
      with ((set_removable true a :: front) ++ [l])%list.
    rewrite last_of_snoc. cbv beta iota zeta.
    repeat split; try reflexivity. f_equal.
    exact (on_last_snoc increment_ids ((set_removable true a :: front) ++ [l])
             (set_keyword "" (clone l))).
Qed.

Lemma add_part_empty : add_part [] = Throw [].
Proof. reflexivity. Qed.

Lemma appended_keyword (l : chunk) : in_val (input (appended l)) = "".
Proof. reflexivity. Qed.

Lemma push_operands_first_set (pattern : string) (b : bool) (rows : list chunk) :
  push_operands pattern (first_set_removable b rows) = push_operands pattern rows.
Proof. destruct rows; reflexivity. Qed.

Lemma push_operands_add_part (pattern : string) (rows : list chunk) :
  push_operands pattern (after (add_part rows)) = push_operands pattern rows.
Proof.
  destruct rows as [|a rows].
  - reflexivity.
  - assert (H : a :: rows <> []) by discriminate.
    destruct (last_of_some _ H) as [front [l E]]. rewrite E.
    destruct (add_part_snoc front l) as (front' & l' & E1 & _ & _ & _ & _ & _ & E2).
    rewrite E2. cbn [after].
    rewrite <- (push_operands_first_set pattern true (front ++ [l])).
    rewrite !push_operands_filter, filter_app. cbn [filter].
    unfold has_keyword at 2. rewrite appended_keyword. cbn [String.eqb negb].
    now rewrite app_nil_r.
Qed.

Lemma query_string_ext (st st' : page) :
  id_operator st' = id_operator st ->
  push_operands part_pattern (query_chunks st') = push_operands part_pattern (query_chunks st) ->
  push_operands not_pattern (not_chunks st') = push_operands not_pattern (not_chunks st) ->
  query_string st' = query_string st.
Proof.
  intros Ho Hq Hn. unfold query_string, query_part, not_operands.
  now rewrite Ho, Hq, Hn.
Qed.

(** ** The compiled query *)

(** C4: the text [build_query] builds from the include rows is the tokens
    [<field>:<keyword>] of the rows with a non-empty keyword, in order,
    joined by a space, the value of the operator and a space; it is empty
    when no include row has a keyword. *)
Theorem include_part_of_build_query : forall st : page,
  query_part st = include_part (id_operator st) (query_chunks st)
  /\ (Forall (fun c => in_val (input c) = "") (query_chunks st) -> query_part st = "").
Proof.
  intros st. split.
  - apply query_part_spec.
  - intros H. rewrite query_part_spec. unfold include_part.
    now rewrite (filter_has_keyword_none _ H).
Qed.

(** C5: the text [build_query] builds from the exclude rows is the tokens
    [-<field>:<keyword>] of the rows with a non-empty keyword joined by one
    space; another operator leaves it as it is and changes the compiled
    query only through the joiner of the include tokens. *)
Theorem exclude_part_of_build_query : forall (st : page) (op : string),
  not_part st = exclude_part (not_chunks st)
  /\ not_part (set_operator st op) = not_part st
  /\ query_string (set_operator st op)
     = compiled (include_part op (query_chunks st)) (not_part st).
Proof.
  intros st op. split; [apply not_part_spec | split; [reflexivity|]].
  rewrite query_string_compiled, query_part_spec. reflexivity.
Qed.

(** C6: [build_query] replaces the content of [#id_q], whatever it was,
    by the include part, followed when the exclude part is not empty by
    the exclude part, with one space between the two when the include part
    is not empty. *)
Theorem build_query_writes_compiled : forall (st : page) (old : string),
  build_query (set_q st old)
  = Normal (set_q st (compiled (include_part (id_operator st) (query_chunks st))
                               (exclude_part (not_chunks st)))).
Proof.
  intros st old. unfold build_query. f_equal.
  change (query_string (set_q st old)) with (query_string st).
  now rewrite query_string_compiled, query_part_spec, not_part_spec.
Qed.

(** C9: [build_query] runs to its end on every page, whatever the fields,
    keywords and operator are, and writes the empty string when every row
    of both kinds has an empty keyword. *)
Theorem build_query_total : forall st : page,
  throws (build_query st) = false
  /\ (exists q, build_query st = Normal (set_q st q))
  /\ (Forall (fun c => in_val (input c) = "") (query_chunks st) ->
      Forall (fun c => in_val (input c) = "") (not_chunks st) ->
      id_q (after (build_query st)) = "").
Proof.
  intros st. split; [reflexivity | split; [now exists (query_string st)|]].
  intros Hq Hn. cbn [build_query after set_q id_q].
  rewrite query_string_compiled, query_part_spec, not_part_spec.
  unfold include_part, exclude_part.
  now rewrite (filter_has_keyword_none _ Hq), (filter_has_keyword_none _ Hn).
Qed.

(** C10: a click on either add trigger leaves [#id_q] as it was, and the
    row it appends has an empty keyword, so [build_query] would write after
    the click what it would have written before. *)
Theorem append_leaves_compiled_query : forall (k : kind) (st : page),
  id_q (after (add_click k st)) = id_q st
  /\ query_string (after (add_click k st)) = query_string st.
Proof.
  intros k st.
  assert (Q := push_operands_add_part part_pattern (query_chunks st)).
  assert (N := push_operands_add_part not_pattern (not_chunks st)).
  destruct k; cbn [add_click]; unfold add_query_part_click, add_not_part_click.
  - destruct (add_part (query_chunks st)) as [rows|rows]; cbn [after] in *;
      (split; [reflexivity | now apply query_string_ext]).
  - destruct (add_part (not_chunks st)) as [rows|rows]; cbn [after] in *;
      (split; [reflexivity | now apply query_string_ext]).
Qed.

(** The examples the specification gives for the compiler. *)

Example combinator_application :
  let cats := set_keyword "cats" (first_row "query_chunk_" "query" "title") in
  let smith := set_keyword "smith" (first_row "query_chunk_" "query" "author") in
  let archived := set_keyword "archived" (first_row "not_chunk_" "not" "tag") in
  let st op := {| query_chunks := [cats; smith]; not_chunks := [archived];
                  id_operator := op; id_q := "" |} in
  query_part (st "OR") = "title:cats OR author:smith"
  /\ id_q (after (build_query (st "AND"))) = "title:cats AND author:smith -tag:archived"
  /\ id_q (after (build_query (st "OR"))) = "title:cats OR author:smith -tag:archived".
Proof. evaluate. Qed.

Example add_then_remove_then_recompile :
  let st1 := run [KeywordEdit Query 0 "x"; AddQueryPart; KeywordEdit Query 1 "y"]
                 (initial_page "title" "AND") in
  let st2 := step st1 (RemoveBtn "remove_0") in
  id_q st1 = "title:x AND title:y"
  /\ id_q st2 = "title:y"
  /\ map chunk_id (query_chunks st2) = ["query_chunk_1"].
Proof. evaluate. Qed.

(** ** The numbers of the rows along a run *)

Lemma indices_ids (rows : list chunk) :
  indices rows = map index_of_id (map chunk_id rows).
Proof. unfold indices. rewrite map_map. reflexivity. Qed.

Lemma index_of_id_of (k : kind) (n : N) :
  (n <= exact_limit)%N -> index_of_id (id_of k n) = Int (Z.of_N n).
Proof.
  intros Hn.
  pose (c := {| chunk_id := id_of k n; removable := false;
                select := {| sel_name := ""; sel_id := ""; sel_markup := ""; sel_val := "" |};
                input := {| in_name := ""; in_id := ""; in_val := "" |} |}).
  exact (row_index_id_of k n c Hn eq_refl).
Qed.

Lemma ascending_from_weaken (lo lo' : Z) (l : list number) :
  (lo <= lo')%Z -> ascending_from lo' l -> ascending_from lo l.
Proof.
  destruct l as [|[z|] l]; cbn [ascending_from]; [trivial | | trivial].
  intros H [H1 H2]. split; [lia | exact H2].
Qed.

Lemma ascending_from_filter (p : chunk -> bool) (rows : list chunk) :
  forall lo, ascending_from lo (indices rows) ->
             ascending_from lo (indices (filter p rows)).
Proof.
  induction rows as [|c rows IH]; intros lo; [trivial|].
  cbn [indices map filter ascending_from].
  destruct (row_index c) as [z|] eqn:E; [|contradiction].
  intros [H1 H2]. destruct (p c).
  - cbn [map ascending_from]. rewrite E. split; [exact H1 | now apply IH].
  - apply IH. apply ascending_from_weaken with (lo' := z); [lia | exact H2].
Qed.

Lemma ascending_from_snoc (l : list number) (a b : Z) :
  forall lo, ascending_from lo (l ++ [Int a]) -> (a < b)%Z ->
             ascending_from lo ((l ++ [Int a]) ++ [Int b]).
Proof.
  induction l as [|[z|] l IH]; intros lo; cbn [app ascending_from].
  - intros [H _] Hab. repeat split; assumption.
  - intros [H1 H2] Hab. split; [exact H1 | now apply IH].
  - contradiction.
Qed.

Lemma rows_ok_same_ids (k : kind) (b : N) (rows rows' : list chunk) :
  map chunk_id rows' = map chunk_id rows -> rows_ok k b rows -> rows_ok k b rows'.
Proof.
  intros E [[ns [Hn Hb]] Ha]. split.
  - exists ns. now rewrite E.
  - unfold ascending in *. now rewrite indices_ids, E, <- indices_ids.
Qed.

Lemma rows_ok_mono (k : kind) (b b' : N) (rows : list chunk) :
  (b <= b')%N -> rows_ok k b rows -> rows_ok k b' rows.
Proof.
  intros Hb [[ns [Hn Hf]] Ha]. split; [|exact Ha].
  exists ns. split; [exact Hn|].
  eapply Forall_impl; [|exact Hf]. cbv beta. intros n Hlt. lia.
Qed.

Lemma numbered_filter (k : kind) (b : N) (p : chunk -> bool) (rows : list chunk) :
  forall ns, map chunk_id rows = map (id_of k) ns -> Forall (fun n => (n <= b)%N) ns ->
  exists ns', map chunk_id (filter p rows) = map (id_of k) ns'
              /\ Forall (fun n => (n <= b)%N) ns'.
Proof.
  induction rows as [|c rows IH]; intros ns E Hf.
  - exists []. split; [reflexivity | constructor].
  - destruct ns as [|n ns]; [discriminate|].
    cbn [map] in E. injection E as Ec Er.
    inversion Hf as [|? ? Hn Hns]; subst.
    destruct (IH ns Er Hns) as [ns' [E' Hf']].
    cbn [filter]. destruct (p c).
    + exists (n :: ns'). cbn [map]. rewrite Ec, E'. split; [reflexivity|].
      now constructor.
    + now exists ns'.
Qed.

Lemma rows_ok_remove_div (k : kind) (b : N) (id : string) (rows : list chunk) :
  rows_ok k b rows -> rows_ok k b (remove_div id rows).
Proof.
  intros [[ns [Hn Hb]] Ha]. split.
  - now apply numbered_filter with (ns := ns).
  - now apply ascending_from_filter.
Qed.

Lemma first_set_removable_ids (b : bool) (rows : list chunk) :
  map chunk_id (first_set_removable b rows) = map chunk_id rows.
Proof. destruct rows; reflexivity. Qed.

Lemma single_not_removable_ids (rows : list chunk) :
  map chunk_id (single_not_removable rows) = map chunk_id rows.
Proof.
  unfold single_not_removable.
  destruct (List.length rows =? 1)%nat; [apply first_set_removable_ids | reflexivity].
Qed.

Lemma update_at_ids (pos : nat) (f : chunk -> chunk) (rows : list chunk) :
  (forall c, chunk_id (f c) = chunk_id c) ->
  map chunk_id (update_at pos f rows) = map chunk_id rows.
Proof.
  intros Hf. revert pos.
  induction rows as [|c rows IH]; intros [|pos]; cbn [update_at map];
    try reflexivity.
  - now rewrite Hf.
  - now rewrite IH.
Qed.

Lemma appended_id (k : kind) (n : N) (l : chunk) :
  (n < exact_limit)%N ->
  chunk_id l = id_of k n -> chunk_id (appended l) = id_of k (n + 1).
Proof. intros Hn H. unfold appended. now apply increment_ids_id_of. Qed.

Lemma numbered_indices (k : kind) (b : N) (ns : list N) (rows : list chunk) :
  (b <= exact_limit)%N -> Forall (fun n => (n <= b)%N) ns ->
  map chunk_id rows = map (id_of k) ns -> indices rows = map int_of_N ns.
Proof.
  intros Hb Hns E. rewrite indices_ids, E, map_map.
  apply map_ext_in. intros n Hin. apply index_of_id_of.
  rewrite Forall_forall in Hns. specialize (Hns n Hin). lia.
Qed.

(** What an append does to numbered rows: one row more, at the end, with
    the next number after the last row's. *)
Lemma add_part_numbered (k : kind) (ns : list N) (n : N) (front : list chunk) (l : chunk) :
  (n < exact_limit)%N ->
  map chunk_id (front ++ [l])%list = map (id_of k) (ns ++ [n])%list ->
  exists rows1 l',
    add_part (front ++ [l])%list = Normal (rows1 ++ [appended l'])%list
    /\ rows1 = first_set_removable true (front ++ [l])%list
    /\ select l' = select l /\ input l' = input l
    /\ map chunk_id (rows1 ++ [appended l'])%list
       = map (id_of k) ((ns ++ [n]) ++ [(n + 1)%N])%list.
Proof.
  intros Hn E.
  destruct (add_part_snoc front l) as (front' & l' & E1 & _ & Hid & Hsel & Hin & _ & E2).
  cbn zeta in E1, E2.
  exists (first_set_removable true (front ++ [l])%list), l'.
  repeat split; try assumption.
  rewrite map_app, first_set_removable_ids, E, (map_app _ (ns ++ [n])%list).
  cbn [map]. do 2 f_equal.
  apply appended_id; [exact Hn|]. rewrite Hid.
  rewrite !map_app in E. cbn [map] in E.
  apply app_inj_tail in E. apply E.
Qed.

Lemma numbered_snoc (k : kind) (ns : list N) (front : list chunk) (l : chunk) :
  map chunk_id (front ++ [l])%list = map (id_of k) ns ->
  exists ns0 n, ns = (ns0 ++ [n])%list.
Proof.
  intros E. destruct ns as [|n0 ns] using rev_ind.
  - apply (f_equal (@List.length string)) in E.
    rewrite !length_map, length_app in E. cbn in E. lia.
  - now exists ns, n0.
Qed.

Lemma rows_ok_add_part (k : kind) (b : N) (rows : list chunk) :
  (b < exact_limit)%N ->
  rows_ok k b rows -> rows_ok k (b + 1) (after (add_part rows)).
Proof.
  intros Hlim H.
  destruct rows as [|a rows].
  - rewrite add_part_empty. cbn [after]. apply rows_ok_mono with (b := b); [lia | exact H].
  - assert (Hne : a :: rows <> []) by discriminate.
    destruct (last_of_some _ Hne) as [front [l E]]. rewrite E in *. clear E Hne.
    destruct H as [[ns [Hn Hb]] Ha].
    destruct (numbered_snoc k ns front l Hn) as [ns0 [n ->]].
    assert (Hnb : (n <= b)%N).
    { apply Forall_app in Hb as [_ Hb]. now inversion Hb. }
    assert (Hb' : Forall (fun m => (m <= b + 1)%N) ((ns0 ++ [n]) ++ [(n + 1)%N])%list).
    { apply Forall_app. split.
      - eapply Forall_impl; [|exact Hb]. cbv beta. intros m Hm. lia.
      - constructor; [lia | constructor]. }
    destruct (add_part_numbered k ns0 n front l) as (rows1 & l' & E2 & _ & _ & _ & Hids);
      [lia | exact Hn |].
    rewrite E2. cbn [after]. split.
    + now exists ((ns0 ++ [n]) ++ [(n + 1)%N])%list.
    + unfold ascending in *.
      rewrite (numbered_indices k (b + 1) _ _ ltac:(lia) Hb' Hids).
      rewrite (numbered_indices k b _ _ ltac:(lia) Hb Hn) in Ha.
      rewrite !map_app in *. cbn [map] in *.
      apply ascending_from_snoc; [exact Ha|]. lia.
Qed.

Lemma add_click_rows (k : kind) (st : page) :
  rows_of k (after (add_click k st)) = after (add_part (rows_of k st))
  /\ rows_of (other k) (after (add_click k st)) = rows_of (other k) st
  /\ id_operator (after (add_click k st)) = id_operator st.
Proof.
  destruct k; cbn [add_click rows_of other];
    unfold add_query_part_click, add_not_part_click.
  - destruct (add_part (query_chunks st)); repeat split; reflexivity.
  - destruct (add_part (not_chunks st)); repeat split; reflexivity.
Qed.

Lemma remove_click_rows (k : kind) (a : string) (st : page) :
  rows_of k (after (remove_click k a st))
  = single_not_removable (remove_div (target_id k a) (rows_of k st))
  /\ rows_of (other k) (after (remove_click k a st))
     = remove_div (target_id k a) (rows_of (other k) st)
  /\ id_operator (after (remove_click k a st)) = id_operator st.
Proof. destruct k; repeat split; reflexivity. Qed.

Lemma control_edit_rows (k : kind) (pos : nat) (f : chunk -> chunk) (st : page) :
  rows_of k (after (control_edit k pos f st)) = update_at pos f (rows_of k st)
  /\ rows_of (other k) (after (control_edit k pos f st)) = rows_of (other k) st
  /\ id_operator (after (control_edit k pos f st)) = id_operator st.
Proof.
  unfold control_edit.
  destruct (Nat.ltb_spec pos (List.length (rows_of k st))) as [H|H].
  - destruct k; repeat split; reflexivity.
  - repeat split; try reflexivity. cbn [after].
    revert pos H. induction (rows_of k st) as [|c rows IH]; intros pos H.
    + now destruct pos.
    + destruct pos as [|pos]; cbn [List.length] in H; [lia|].
      cbn [update_at]. f_equal. apply IH. lia.
Qed.

Lemma page_ok_kinds (b : N) (st : page) :
  page_ok b st <-> forall k, rows_ok k b (rows_of k st).
Proof.
  split.
  - intros [Hq Hn] [|]; assumption.
  - intros H. split; [apply (H Query) | apply (H Not)].
Qed.

Lemma rows_of_other (k : kind) (P : kind -> list chunk -> Prop) (st : page) :
  P k (rows_of k st) -> P (other k) (rows_of (other k) st) ->
  forall k', P k' (rows_of k' st).
Proof. intros Hk Ho k'. destruct k, k'; assumption. Qed.

Lemma page_ok_step (b : N) (st : page) (e : event) :
  (b < exact_limit)%N -> page_ok b st -> page_ok (b + 1) (step st e).
Proof.
  intros Hlim H. rewrite page_ok_kinds in H. apply page_ok_kinds.
  assert (Hm : forall k rows, rows_ok k b rows -> rows_ok k (b + 1) rows)
    by (intros k rows; apply rows_ok_mono; lia).
  assert (Add : forall k k', rows_ok k' (b + 1) (rows_of k' (after (add_click k st)))).
  { intros k. destruct (add_click_rows k st) as (E1 & E2 & _).
    apply (rows_of_other k (fun k0 r => rows_ok k0 (b + 1) r)).
    - rewrite E1. apply rows_ok_add_part; [exact Hlim | apply H].
    - rewrite E2. apply Hm, H. }
  assert (Rem : forall k a k', rows_ok k' (b + 1) (rows_of k' (after (remove_click k a st)))).
  { intros k a. destruct (remove_click_rows k a st) as (E1 & E2 & _).
    apply (rows_of_other k (fun k0 r => rows_ok k0 (b + 1) r)).
    - rewrite E1. apply Hm.
      eapply rows_ok_same_ids; [apply single_not_removable_ids|].
      apply rows_ok_remove_div, H.
    - rewrite E2. apply Hm, rows_ok_remove_div, H. }
  assert (Ed : forall k pos f, (forall c, chunk_id (f c) = chunk_id c) ->
            forall k', rows_ok k' (b + 1) (rows_of k' (after (control_edit k pos f st)))).
  { intros k pos f Hf. destruct (control_edit_rows k pos f st) as (E1 & E2 & _).
    apply (rows_of_other k (fun k0 r => rows_ok k0 (b + 1) r)).
    - rewrite E1. apply Hm.
      eapply rows_ok_same_ids; [now apply update_at_ids | apply H].
    - rewrite E2. apply Hm, H. }
  unfold step. destruct e as [| |a|a|k pos text|k pos value|value]; cbn [handle].
  - apply (Add Query).
  - apply (Add Not).
  - apply (Rem Query).
  - apply (Rem Not).
  - now apply Ed.
  - now apply Ed.
  - intros k. apply Hm. destruct k; apply H.
Qed.

Lemma page_ok_mono (b b' : N) (st : page) :
  (b <= b')%N -> page_ok b st -> page_ok b' st.
Proof. intros Hb [Hq Hn]. split; eapply rows_ok_mono; eassumption. Qed.

Lemma trace_page_ok (evs : list event) :
  forall (st : page) (b : N),
    page_ok b st ->
    (b + N.of_nat (List.length evs) <= exact_limit)%N ->
    Forall (page_ok (b + N.of_nat (List.length evs))) (trace evs st).
Proof.
  induction evs as [|e evs IH]; intros st b H Hlim; cbn [trace]; constructor.
  - apply page_ok_mono with (b := b); [lia | exact H].
  - constructor.
  - apply page_ok_mono with (b := b); [lia | exact H].
  - cbn [List.length] in Hlim.
    apply page_ok_step with (e := e) in H; [|lia]. apply IH in H; [|lia].
    eapply Forall_impl; [|exact H]. cbv beta. intros s. apply page_ok_mono.
    cbn [List.length]. lia.
Qed.

(** *** Dense numbering *)

Lemma upto_S (n : nat) : upto (S n) = (upto n ++ [Int (Z.of_nat n)])%list.
Proof. unfold upto. now rewrite seq_S, map_app. Qed.

Lemma dense_same_ids (rows rows' : list chunk) :
  map chunk_id rows' = map chunk_id rows -> dense rows -> dense rows'.
Proof.
  intros E. unfold dense. rewrite !indices_ids, E.
  apply (f_equal (@List.length string)) in E. rewrite !length_map in E.
  now rewrite E.
Qed.

Lemma dense_front (front : list chunk) (l : chunk) :
  dense (front ++ [l])%list ->
  dense front /\ row_index l = Int (Z.of_nat (List.length front)).
Proof.
  unfold dense, indices. rewrite map_app, length_app. cbn [map List.length].
  rewrite Nat.add_1_r, upto_S. intros H. apply app_inj_tail in H. exact H.
Qed.

Lemma dense_add_part (k : kind) (b : N) (rows : list chunk) :
  (b < exact_limit)%N ->
  rows_ok k b rows -> dense rows -> dense (after (add_part rows)).
Proof.
  intros Hlim Hok Hd. destruct rows as [|a rows]; [exact Hd|].
  assert (Hne : a :: rows <> []) by discriminate.
  destruct (last_of_some _ Hne) as [front [l E]]. rewrite E in *. clear E Hne.
  destruct Hok as [[ns [Hn Hb]] _].
  destruct (numbered_snoc k ns front l Hn) as [ns0 [n ->]].
  assert (Hnb : (n <= b)%N).
  { apply Forall_app in Hb as [_ Hb]. now inversion Hb. }
  assert (Hb' : Forall (fun m => (m <= b + 1)%N) ((ns0 ++ [n]) ++ [(n + 1)%N])%list).
  { apply Forall_app. split.
    - eapply Forall_impl; [|exact Hb]. cbv beta. intros m Hm. lia.
    - constructor; [lia | constructor]. }
  destruct (add_part_numbered k ns0 n front l) as (rows1 & l' & E2 & E1 & _ & _ & Hids);
    [lia | exact Hn |].
  rewrite E2. cbn [after].
  pose proof (numbered_indices k b _ _ ltac:(lia) Hb Hn) as In0.
  pose proof (numbered_indices k (b + 1) _ _ ltac:(lia) Hb' Hids) as In1.
  unfold dense in *. rewrite In1. rewrite In0 in Hd.
  assert (L : List.length (rows1 ++ [appended l'])%list = S (List.length (front ++ [l])%list)).
  { rewrite E1, length_app. cbn [List.length].
    destruct front; cbn [app first_set_removable List.length]; lia. }
  rewrite L, upto_S, <- Hd, (map_app _ (ns0 ++ [n])%list). cbn [map]. do 2 f_equal.
  rewrite length_app in Hd. cbn [List.length] in Hd.
  rewrite Nat.add_1_r, upto_S, map_app in Hd. cbn [map] in Hd.
  apply app_inj_tail in Hd as [_ Hd]. unfold int_of_N in *.
  injection Hd as Hd. rewrite length_app. cbn [List.length]. f_equal. lia.
Qed.

Lemma filter_keeps_all (p : chunk -> bool) (rows : list chunk) :
  forallb p rows = true -> filter p rows = rows.
Proof.
  induction rows as [|c rows IH]; [reflexivity|].
  cbn [forallb filter]. intros H. apply andb_prop in H as [Hc Hr].
  now rewrite Hc, (IH Hr).
Qed.

Lemma dense_remove_last (id : string) (rows : list chunk) :
  forallb (fun c => negb (String.eqb (chunk_id c) id)) (removelast rows) = true ->
  dense rows -> dense (remove_div id rows).
Proof.
  intros H Hd. destruct rows as [|a rows]; [exact Hd|].
  assert (Hne : a :: rows <> []) by discriminate.
  destruct (last_of_some _ Hne) as [front [l E]]. rewrite E in *. clear E Hne.
  rewrite removelast_last in H.
  unfold remove_div. rewrite filter_app, (filter_keeps_all _ _ H). cbn [filter].
  destruct (negb (String.eqb (chunk_id l) id)); [exact Hd|].
  rewrite app_nil_r. now apply dense_front in Hd.
Qed.

Lemma other_kind_differs (k : kind) (n : N) (x : string) :
  String.eqb (id_of (other k) n) (div_prefix k ++ x) = false.
Proof. destruct k; reflexivity. Qed.

Lemma remove_div_other_kind (k : kind) (b : N) (x : string) (rows : list chunk) :
  rows_ok (other k) b rows -> remove_div (div_prefix k ++ x) rows = rows.
Proof.
  intros [[ns [Hn _]] _]. unfold remove_div. apply filter_keeps_all.
  revert ns Hn. induction rows as [|c rows IH]; intros ns Hn; [reflexivity|].
  destruct ns as [|n ns]; [discriminate|].
  cbn [map] in Hn. injection Hn as Hc Hr.
  cbn [forallb]. rewrite Hc, other_kind_differs. cbn [negb andb].
  now apply IH with (ns := ns).
Qed.

Lemma page_dense_kinds (st : page) :
  page_dense st <-> forall k, dense (rows_of k st).
Proof.
  split.
  - intros [Hq Hn] [|]; assumption.
  - intros H. split; [apply (H Query) | apply (H Not)].
Qed.

Lemma page_dense_step (b : N) (st : page) (e : event) :
  (b < exact_limit)%N ->
  page_ok b st -> page_dense st -> takes_last_only e st = true ->
  page_dense (step st e).
Proof.
  intros Hlim Hok Hd Hl.
  rewrite page_ok_kinds in Hok. rewrite page_dense_kinds in Hd.
  apply page_dense_kinds.
  assert (Add : forall k k', dense (rows_of k' (after (add_click k st)))).
  { intros k. destruct (add_click_rows k st) as (E1 & E2 & _).
    apply (rows_of_other k (fun _ r => dense r)).
    - rewrite E1. apply (dense_add_part k b); [exact Hlim | apply Hok | apply Hd].
    - rewrite E2. apply Hd. }
  assert (Rem : forall k a,
            forallb (fun c => negb (String.eqb (chunk_id c) (target_id k a)))
              (removelast (rows_of k st)) = true ->
            forall k', dense (rows_of k' (after (remove_click k a st)))).
  { intros k a Ha. destruct (remove_click_rows k a st) as (E1 & E2 & _).
    apply (rows_of_other k (fun _ r => dense r)).
    - rewrite E1.
      eapply dense_same_ids; [apply single_not_removable_ids|].
      apply dense_remove_last; [exact Ha | apply Hd].
    - rewrite E2. unfold target_id.
      rewrite (remove_div_other_kind k b); [apply Hd | apply Hok]. }
  assert (Ed : forall k pos f, (forall c, chunk_id (f c) = chunk_id c) ->
            forall k', dense (rows_of k' (after (control_edit k pos f st)))).
  { intros k pos f Hf. destruct (control_edit_rows k pos f st) as (E1 & E2 & _).
    apply (rows_of_other k (fun _ r => dense r)).
    - rewrite E1. eapply dense_same_ids; [now apply update_at_ids | apply Hd].
    - rewrite E2. apply Hd. }
  unfold step. destruct e as [| |a|a|k pos text|k pos value|value];
    cbn [handle takes_last_only] in *.
  - apply (Add Query).
  - apply (Add Not).
  - now apply (Rem Query).
  - now apply (Rem Not).
  - now apply Ed.
  - now apply Ed.
  - intros k. destruct k; [apply (Hd Query) | apply (Hd Not)].
Qed.

Lemma trace_page_dense (evs : list event) :
  forall (st : page) (b : N),
    page_ok b st ->
    (b + N.of_nat (List.length evs) <= exact_limit)%N ->
    page_dense st -> removes_last_rows_only evs st = true ->
    Forall page_dense (trace evs st).
Proof.
  induction evs as [|e evs IH]; intros st b Hok Hlim Hd Hl; cbn [trace];
    constructor; try assumption.
  - constructor.
  - cbn [removes_last_rows_only] in Hl. apply andb_prop in Hl as [He Hl].
    cbn [List.length] in Hlim.
    apply IH with (b := (b + 1)%N).
    + apply page_ok_step; [lia | exact Hok].
    + lia.
    + apply page_dense_step with (b := b); [lia | assumption ..].
    + exact Hl.
Qed.

Lemma page_ok_ascending (b : N) (st : page) : page_ok b st -> page_ascending st.
Proof. intros [[_ Hq] [_ Hn]]. split; assumption. Qed.

Lemma initial_page_ok (field operator : string) : page_ok 0 (initial_page field operator).
Proof.
  assert (B : Forall (fun n => (n <= 0)%N) [0%N]) by (constructor; [lia | constructor]).
  split; (split; [now exists [0%N] | vm_compute; split; [reflexivity | exact I]]).
Qed.

Lemma initial_page_dense (field operator : string) :
  page_dense (initial_page field operator).
Proof. split; reflexivity. Qed.

(** ** The rows along a run *)

(** C1, as the code has it.  Take a page whose rows carry the [id]s
    [query_chunk_N] and [not_chunk_N] with numbers [N] up to [b] that go
    up in display order, as on the initial page, and a run of events with
    [b] plus its length at most [2^53], whose remove clicks carry plain
    names.  After
    every event the numbers in the [id]s of each kind of row go up in
    display order, so no number comes twice.  When, moreover, the numbers
    of each kind are exactly [0 .. length-1] on the page the run starts
    from, as on the initial page, and each remove click takes away the
    last row of its kind or none, they are exactly [0 .. length-1] after
    every event.  The handlers do not renumber the rows that follow a
    removed one, and an append numbers the new row from the last one,
    not from the length. *)
Theorem row_numbers_along_a_run :
  forall (evs : list event) (st : page) (b : N),
    page_ok b st ->
    (b + N.of_nat (List.length evs) <= exact_limit)%N ->
    forallb event_ok evs = true ->
    Forall page_ascending (trace evs st)
    /\ (page_dense st -> removes_last_rows_only evs st = true ->
        Forall page_dense (trace evs st)).
Proof.
  intros evs st b Hok Hlim _. split.
  - eapply Forall_impl; [|apply trace_page_ok; [exact Hok | exact Hlim]].
    intros s. apply page_ok_ascending.
  - intros Hd Hl. now apply trace_page_dense with (b := b).
Qed.

(** Two runs from the initial page: the first takes away a middle row
    and keeps the numbers going up; the second only takes away last rows
    (and once names no row) and keeps them at [0 .. length-1]. *)
Lemma row_numbers_along_a_run_witness :
  let gap := [AddQueryPart; AddQueryPart; RemoveBtn "remove_1"; AddQueryPart;
              KeywordEdit Query 0 "cats"; AddNotPart; NotRemoveBtn "not_remove_1"] in
  let tail := [AddQueryPart; AddQueryPart; RemoveBtn "remove_2"; AddQueryPart;
               KeywordEdit Query 0 "cats"; AddNotPart; NotRemoveBtn "not_remove_1";
               RemoveBtn "remove_9"] in
  let st := initial_page "title" "AND" in
  (Forall page_ascending (trace gap st)
   /\ removes_last_rows_only gap st = false)
  /\ (page_dense st
      /\ removes_last_rows_only tail st = true
      /\ Forall page_ascending (trace tail st)
      /\ Forall page_dense (trace tail st)).
Proof.
  cbv zeta. split.
  - split; [|vm_compute; reflexivity].
    apply (row_numbers_along_a_run _ _ 0%N).
    + apply initial_page_ok.
    + now vm_compute.
    + reflexivity.
  - assert (Hd : page_dense (initial_page "title" "AND")) by apply initial_page_dense.
    assert (Hl : removes_last_rows_only
                   [AddQueryPart; AddQueryPart; RemoveBtn "remove_2"; AddQueryPart;
                    KeywordEdit Query 0 "cats"; AddNotPart; NotRemoveBtn "not_remove_1";
                    RemoveBtn "remove_9"] (initial_page "title" "AND") = true)
      by (vm_compute; reflexivity).
    split; [exact Hd|]. split; [exact Hl|].
    destruct (row_numbers_along_a_run
                [AddQueryPart; AddQueryPart; RemoveBtn "remove_2"; AddQueryPart;
                 KeywordEdit Query 0 "cats"; AddNotPart; NotRemoveBtn "not_remove_1";
                 RemoveBtn "remove_9"] (initial_page "title" "AND") 0%N) as [Ha Hden].
    + apply initial_page_ok.
    + now vm_compute.
    + reflexivity.
    + split; [exact Ha | exact (Hden Hd Hl)].
Defined.

(** The claim of C1 as stated fails: after one append and the removal of
    row 0 the include rows never were fewer than one, and the row left
    carries the number 1, not 0. *)
Lemma removal_leaves_a_gap :
  let st := initial_page "title" "AND" in
  map (fun s => List.length (query_chunks s)) (trace [AddQueryPart; RemoveBtn "remove_0"] st)
  = [1; 2; 1]%nat
  /\ indices (query_chunks (run [AddQueryPart; RemoveBtn "remove_0"] st)) = [Int 1]
  /\ ~ dense (query_chunks (run [AddQueryPart; RemoveBtn "remove_0"] st)).
Proof.
  evaluate. intros H. vm_compute in H. discriminate H.
Qed.

(** ** Appending a row *)

Lemma last_of_snoc_inv (rows : list chunk) (l : chunk) :
  last_of rows = Some l -> exists front, rows = (front ++ [l])%list.
Proof.
  intros H. destruct rows as [|a rows]; [discriminate|].
  assert (Hne : a :: rows <> []) by discriminate.
  destruct (last_of_some _ Hne) as [front [l0 E]]. rewrite E in *.
  rewrite last_of_snoc in H. injection H as ->. now exists front.
Qed.

Lemma add_click_normal (k : kind) (st : page) (rows' : list chunk) :
  add_part (rows_of k st) = Normal rows' -> add_click k st = Normal (set_rows k st rows').
Proof.
  destruct k; cbn [add_click rows_of set_rows];
    unfold add_query_part_click, add_not_part_click; now intros ->.
Qed.

Lemma appended_row (k : kind) (n : N) (l : chunk) :
  (n < exact_limit)%N ->
  chunk_id l = id_of k n ->
  in_val (input (appended l)) = ""
  /\ sel_val (select (appended l)) = sel_markup (select l)
  /\ chunk_id (appended l) = id_of k (n + 1)
  /\ row_index (appended l) = Int (Z.of_N n + 1).
Proof.
  intros Hn H. repeat split.
  - now apply appended_id.
  - rewrite (row_index_id_of k (n + 1) _ ltac:(lia) (appended_id k n l Hn H)).
    f_equal. lia.
Qed.

(** C7, as the code has it: on rows whose last row [l] is numbered [n]
    (below [2^53]) an append keeps the rows, marks the first removable and
    adds one row at the end; the new row has an empty keyword and the
    number [n + 1], which is the length before the append when the numbers
    were [0 .. length-1]; its selector shows the option its markup selects,
    which is the field of [l] when that was not changed. *)
Theorem append_adds_one_row :
  forall (k : kind) (st : page) (l : chunk) (n : N),
    last_of (rows_of k st) = Some l ->
    chunk_id l = id_of k n ->
    (n < exact_limit)%N ->
    exists new,
      add_click k st
      = Normal (set_rows k st (first_set_removable true (rows_of k st) ++ [new])%list)
      /\ in_val (input new) = ""
      /\ sel_val (select new) = sel_markup (select l)
      /\ (sel_val (select l) = sel_markup (select l) ->
          sel_val (select new) = sel_val (select l))
      /\ row_index new = Int (Z.of_N n + 1)
      /\ (dense (rows_of k st) ->
          row_index new = Int (Z.of_nat (List.length (rows_of k st)))).
Proof.
  intros k st l n Hl Hid Hn.
  destruct (last_of_snoc_inv _ _ Hl) as [front E].
  destruct (add_part_snoc front l) as (front' & l' & _ & _ & Hid' & Hsel & _ & _ & E2).
  cbn zeta in E2. rewrite <- E in E2.
  assert (Hid2 : chunk_id l' = id_of k n) by now rewrite Hid'.
  destruct (appended_row k n l' Hn Hid2) as (Hkw & Hf & _ & Hix).
  exists (appended l'). rewrite <- Hsel.
  split; [now apply add_click_normal|].
  split; [exact Hkw|]. split; [exact Hf|]. split; [now intros ->|].
  split; [exact Hix|].
  intros Hd. rewrite Hix. rewrite E in Hd. apply dense_front in Hd as [_ Hd].
  rewrite (row_index_id_of k n l ltac:(lia) Hid) in Hd. injection Hd as Hd.
  rewrite E, length_app. cbn [List.length]. f_equal. lia.
Qed.

Lemma append_adds_one_row_witness :
  let st := run [AddQueryPart; RemoveBtn "remove_0"] (initial_page "title" "AND") in
  exists l new,
    last_of (rows_of Query st) = Some l
    /\ add_click Query st
       = Normal (set_rows Query st (first_set_removable true (rows_of Query st) ++ [new])%list)
    /\ in_val (input new) = ""
    /\ sel_val (select new) = sel_markup (select l)
    /\ row_index new = Int 2.
Proof.
  cbv zeta.
  eexists.
  destruct (append_adds_one_row Query
              (run [AddQueryPart; RemoveBtn "remove_0"] (initial_page "title" "AND"))
              _ 1%N eq_refl eq_refl eq_refl) as (new & H1 & H2 & H3 & _ & H5 & _).
  exists new. repeat split; assumption.
Defined.

(** The claim of C7 as stated fails on rows with a gap: after an append
    and the removal of row 0 the one include row left is numbered 1, and
    the row an append adds gets the number 2, not the length 1.  An
    appended row also shows the option of the markup, not the one chosen
    in the last row. *)
Lemma append_after_removal :
  let st := run [AddQueryPart; RemoveBtn "remove_0"] (initial_page "title" "AND") in
  let st2 := run [FieldEdit Query 0 "author"] (initial_page "title" "AND") in
  List.length (query_chunks st) = 1%nat
  /\ indices (query_chunks (step st AddQueryPart)) = [Int 1; Int 2]
  /\ Int 2 <> Int (Z.of_nat (List.length (query_chunks st)))
  /\ map (fun c => sel_val (select c)) (query_chunks (step st2 AddQueryPart))
     = ["author"; "title"].
Proof.
  evaluate. vm_compute. discriminate.
Qed.

(** ** Removing a row *)

Lemma alone_single_not_removable (rows : list chunk) :
  alone_not_removable (single_not_removable rows).
Proof. destruct rows as [|c [|c' rows]]; cbn; trivial. Qed.

Lemma single_not_removable_fixed (rows : list chunk) :
  alone_not_removable rows -> single_not_removable rows = rows.
Proof.
  destruct rows as [|c [|c' rows]]; cbn; try reflexivity.
  intros H. destruct c as [i r s0 i0]. cbn in H. now subst r.
Qed.

Lemma set_q_same (st : page) : set_q st (id_q st) = st.
Proof. now destruct st. Qed.

Lemma remove_divs_absent (id : string) (st : page) :
  absent id st = true -> remove_divs id st = st.
Proof.
  unfold absent, remove_divs, remove_div. rewrite forallb_app.
  intros H. apply andb_prop in H as [Hq Hn].
  rewrite (filter_keeps_all _ _ Hq), (filter_keeps_all _ _ Hn). now destruct st.
Qed.

(** C8, as the code has it: a remove click whose index names no row of
    the page leaves the rows of both kinds and the operator as they are.
    The exclude handler then leaves the whole page unchanged; the include
    handler still runs [build_query], so [#id_q] is written anew and the
    page is unchanged when [#id_q] was up to date. *)
Theorem remove_click_on_absent_row :
  forall (k : kind) (a : string) (st : page),
    name_ok (remove_index k a) = true ->
    absent (target_id k a) st = true ->
    alone_not_removable (rows_of k st) ->
    remove_click k a st
    = Normal match k with
             | Query => set_q st (query_string st)
             | Not => st
             end
    /\ (id_q st = query_string st -> remove_click k a st = Normal st).
Proof.
  intros k a st _ Hab Hal.
  assert (E : remove_click k a st
              = Normal match k with
                       | Query => set_q st (query_string st)
                       | Not => st
                       end).
  { destruct k; cbn [remove_click rows_of] in *.
    - unfold remove_btn_click.
      change ("query_chunk_" ++ to_string (item 1 (split_on "_" a)))
        with (target_id Query a).
      rewrite (remove_divs_absent _ _ Hab), (single_not_removable_fixed _ Hal).
      unfold build_query. now destruct st.
    - unfold not_remove_btn_click.
      change ("not_chunk_" ++ to_string (item 2 (split_on "_" a)))
        with (target_id Not a).
      rewrite (remove_divs_absent _ _ Hab), (single_not_removable_fixed _ Hal).
      now destruct st. }
  split; [exact E|].
  intros Hq. rewrite E. destruct k; [|reflexivity].
  now rewrite <- Hq, set_q_same.
Qed.

Lemma remove_click_on_absent_row_witness :
  let st := run [AddQueryPart; KeywordEdit Query 0 "cats"; KeywordEdit Query 1 "smith";
                 OperatorChange "OR"] (initial_page "title" "AND") in
  remove_click Query "remove_7" st = Normal (set_q st (query_string st))
  /\ (id_q st = query_string st -> remove_click Query "remove_7" st = Normal st).
Proof.
  cbv zeta.
  apply (remove_click_on_absent_row Query "remove_7"); [reflexivity | reflexivity |].
  exact I.
Defined.

(** The claim of C8 as stated fails when [#id_q] is out of date: after the
    operator was changed to OR the field still holds the query joined by
    AND, and a remove click with the index 7, which no row has, rewrites it. *)
Lemma absent_index_rewrites_query :
  let st := run [AddQueryPart; KeywordEdit Query 0 "cats"; KeywordEdit Query 1 "smith";
                 OperatorChange "OR"] (initial_page "title" "AND") in
  let st' := after (remove_btn_click "remove_7" st) in
  absent "query_chunk_7" st = true
  /\ id_q st = "title:cats AND title:smith"
  /\ id_q st' = "title:cats OR title:smith"
  /\ st' <> st.
Proof.
  evaluate. intros H. apply (f_equal id_q) in H. vm_compute in H. discriminate H.
Qed.

Lemma dec_inj (n m : N) : dec n = dec m -> n = m.
Proof.
  unfold dec. intros H. apply (f_equal NilEmpty.uint_of_string) in H.
  rewrite !NilEmpty.usu in H. injection H as H.
  now apply DecimalN.Unsigned.to_uint_inj.
Qed.

Lemma id_of_inj (k : kind) (n m : N) : id_of k n = id_of k m -> n = m.
Proof.
  unfold id_of. intros H. apply dec_inj.
  destruct k; cbn [div_prefix append] in H; now injection H.
Qed.

Lemma remove_div_two_rows (k : kind) (b : N) (id : string) (rows : list chunk) :
  (b <= exact_limit)%N ->
  rows_ok k b rows -> (2 <= List.length rows)%nat -> remove_div id rows <> [].
Proof.
  intros Hlim [[ns [Hn Hb]] Ha] Hlen.
  destruct rows as [|c1 [|c2 rows]]; cbn [List.length] in Hlen; try lia.
  destruct ns as [|n1 [|n2 ns]]; try discriminate.
  unfold ascending in Ha. rewrite (numbered_indices k b _ _ Hlim Hb Hn) in Ha.
  cbn [map int_of_N ascending_from] in Ha. destruct Ha as (_ & Hlt & _).
  cbn [map] in Hn. injection Hn as H1 H2 _.
  unfold remove_div. cbn [filter].
  destruct (String.eqb_spec (chunk_id c1) id) as [E1|E1]; cbn [negb]; [|discriminate].
  destruct (String.eqb_spec (chunk_id c2) id) as [E2|E2]; cbn [negb]; [|discriminate].
  exfalso. rewrite <- E2, H1, H2 in E1. apply id_of_inj in E1. lia.
Qed.

Lemma remove_div_marked (id : string) (rows : list chunk) :
  rows <> [] -> alone_not_removable rows ->
  forallb (fun c => implb (String.eqb (chunk_id c) id) (removable c)) rows = true ->
  (2 <= List.length rows)%nat \/ remove_div id rows = rows.
Proof.
  intros Hne Hal Hm. destruct rows as [|c [|c' rows]]; [congruence | | left; cbn; lia].
  right. cbn in Hal, Hm. rewrite Hal, andb_true_r in Hm.
  unfold remove_div. cbn [filter].
  destruct (String.eqb (chunk_id c) id); [discriminate | reflexivity].
Qed.

Lemma update_at_alone (pos : nat) (f : chunk -> chunk) (rows : list chunk) :
  (forall c, removable (f c) = removable c) ->
  alone_not_removable rows -> alone_not_removable (update_at pos f rows).
Proof.
  intros Hf. destruct rows as [|c [|c' rows]]; destruct pos as [|[|pos]];
    cbn; trivial; now rewrite Hf.
Qed.

Lemma update_at_nonempty (pos : nat) (f : chunk -> chunk) (rows : list chunk) :
  rows <> [] -> update_at pos f rows <> [].
Proof. destruct rows, pos; cbn; congruence. Qed.

Lemma add_part_kept (rows : list chunk) :
  rows <> [] ->
  after (add_part rows) <> [] /\ alone_not_removable (after (add_part rows)).
Proof.
  intros Hne. destruct (last_of_some _ Hne) as [front [l E]]. rewrite E.
  destruct (add_part_snoc front l) as (front' & l' & E1 & _ & _ & _ & _ & _ & E2).
  cbn zeta in E1, E2. rewrite E2, E1. cbn [after]. split.
  - destruct front'; discriminate.
  - destruct front' as [|x [|y front']]; cbn; trivial.
Qed.

Lemma rows_kept_step (b : N) (st : page) (e : event) :
  (b <= exact_limit)%N ->
  page_ok b st -> rows_kept st -> hits_removable e st = true -> rows_kept (step st e).
Proof.
  intros Hlim Hok Hk Hh. rewrite page_ok_kinds in Hok. unfold rows_kept in *.
  pose (K := fun (_ : kind) r => r <> [] /\ alone_not_removable r).
  assert (Add : forall k k', K k' (rows_of k' (after (add_click k st)))).
  { intros k. destruct (add_click_rows k st) as (E1 & E2 & _).
    apply (rows_of_other k K); unfold K.
    - rewrite E1. apply add_part_kept, Hk.
    - rewrite E2. apply Hk. }
  assert (Rem : forall k a,
            forallb (fun c => implb (String.eqb (chunk_id c) (target_id k a)) (removable c))
              (rows_of k st) = true ->
            forall k', K k' (rows_of k' (after (remove_click k a st)))).
  { intros k a Ha. destruct (remove_click_rows k a st) as (E1 & E2 & _).
    apply (rows_of_other k K); unfold K.
    - rewrite E1. split; [|apply alone_single_not_removable].
      intros Hnil. apply (f_equal (map chunk_id)) in Hnil.
      rewrite single_not_removable_ids in Hnil. apply map_eq_nil in Hnil.
      destruct (Hk k) as [Hne Hal].
      destruct (remove_div_marked _ _ Hne Hal Ha) as [H2|Hsame].
      + now apply (remove_div_two_rows k b (target_id k a) _ Hlim (Hok k) H2).
      + congruence.
    - rewrite E2. unfold target_id.
      rewrite (remove_div_other_kind k b); [apply Hk | apply Hok]. }
  assert (Ed : forall k pos f, (forall c, removable (f c) = removable c) ->
            forall k', K k' (rows_of k' (after (control_edit k pos f st)))).
  { intros k pos f Hf. destruct (control_edit_rows k pos f st) as (E1 & E2 & _).
    apply (rows_of_other k K); unfold K.
    - rewrite E1. split; [apply update_at_nonempty | apply update_at_alone];
        try assumption; apply Hk.
    - rewrite E2. apply Hk. }
  unfold step. destruct e as [| |a|a|k pos text|k pos value|value];
    cbn [handle hits_removable] in *.
  - apply (Add Query).
  - apply (Add Not).
  - now apply (Rem Query).
  - now apply (Rem Not).
  - now apply Ed.
  - now apply Ed.
  - intros k. destruct k; [apply (Hk Query) | apply (Hk Not)].
Qed.

Lemma trace_rows_kept (evs : list event) :
  forall (st : page) (b : N),
    page_ok b st ->
    (b + N.of_nat (List.length evs) <= exact_limit)%N ->
    rows_kept st -> clicks_hit_removable evs st = true ->
    Forall rows_kept (trace evs st).
Proof.
  induction evs as [|e evs IH]; intros st b Hok Hlim Hk Hc; cbn [trace];
    constructor; try assumption.
  - constructor.
  - cbn [clicks_hit_removable] in Hc. apply andb_prop in Hc as [He Hc].
    cbn [List.length] in Hlim.
    apply IH with (b := (b + 1)%N).
    + apply page_ok_step; [lia | exact Hok].
    + lia.
    + apply rows_kept_step with (b := b); [lia | assumption ..].
    + exact Hc.
Qed.

Lemma initial_rows_kept (field operator : string) : rows_kept (initial_page field operator).
Proof. intros [|]; split; cbn; (discriminate || reflexivity). Qed.

(** C2, as the code has it: the remove handlers have no guard for the
    last row; what keeps it is the [removable] mark.  Take a page whose
    rows carry the [id]s [query_chunk_N] and [not_chunk_N] with numbers
    [N] that go up in display order (so no two rows of a kind share an
    [id]), where each kind has a row and a row alone is not marked
    removable, all as on the initial page; and a run of events whose
    length plus the largest number [b] on the page is at most [2^53],
    whose remove clicks carry plain names and only name rows marked
    removable.  After every event each kind has at least one row,
    and a row left alone is not marked removable; and a remove click of
    that sort on a kind with a single row names no row of it and leaves
    its rows as they are. *)
Theorem rows_kept_along_a_run :
  forall (evs : list event) (st : page) (b : N),
    page_ok b st ->
    rows_kept st ->
    (b + N.of_nat (List.length evs) <= exact_limit)%N ->
    forallb event_ok evs = true ->
    clicks_hit_removable evs st = true ->
    Forall rows_kept (trace evs st)
    /\ (forall (k : kind) (a : string),
          List.length (rows_of k st) = 1%nat ->
          forallb (fun c => implb (String.eqb (chunk_id c) (target_id k a)) (removable c))
            (rows_of k st) = true ->
          rows_of k (after (remove_click k a st)) = rows_of k st).
Proof.
  intros evs st b Hok Hk Hlim _ Hc. split.
  - now apply trace_rows_kept with (b := b).
  - intros k a Hlen Hm.
    destruct (remove_click_rows k a st) as (E1 & _ & _). rewrite E1.
    destruct (Hk k) as [Hne Hal].
    destruct (remove_div_marked _ _ Hne Hal Hm) as [H2|Hsame]; [lia|].
    rewrite Hsame. now apply single_not_removable_fixed.
Qed.

Lemma rows_kept_along_a_run_witness :
  let evs := [AddQueryPart; RemoveBtn "remove_0"; RemoveBtn "remove_9";
              AddNotPart; AddNotPart; NotRemoveBtn "not_remove_1";
              NotRemoveBtn "not_remove_0"; KeywordEdit Not 0 "old"] in
  let st := initial_page "title" "AND" in
  Forall rows_kept (trace evs st)
  /\ (forall (k : kind) (a : string),
        List.length (rows_of k st) = 1%nat ->
        forallb (fun c => implb (String.eqb (chunk_id c) (target_id k a)) (removable c))
          (rows_of k st) = true ->
        rows_of k (after (remove_click k a st)) = rows_of k st).
Proof.
  cbv zeta.
  apply (rows_kept_along_a_run _ _ 0%N).
  - apply initial_page_ok.
  - apply initial_rows_kept.
  - now vm_compute.
  - vm_compute. reflexivity.
  - vm_compute. reflexivity.
Defined.

(** The claim of C2 as stated fails: the initial page has one row of each
    kind, and a click on the remove anchor of row 0 takes it away. *)
Lemma remove_click_on_single_row :
  let st := initial_page "title" "AND" in
  List.length (query_chunks st) = 1%nat
  /\ query_chunks (after (remove_btn_click "remove_0" st)) = []
  /\ List.length (not_chunks st) = 1%nat
  /\ not_chunks (after (not_remove_btn_click "not_remove_0" st)) = [].
Proof. evaluate. Qed.

(** ** Keeping [#id_q] up to date *)

Lemma build_query_in_sync (st : page) : in_sync (after (build_query st)).
Proof. reflexivity. Qed.

(** The include remove handler and the edits of the controls end with
    [build_query]; the add handlers do not, but leave what it would write
    as it is. *)
Lemma step_in_sync (st : page) (e : event) :
  match e with
  | RemoveBtn _ => True
  | KeywordEdit k pos _ | FieldEdit k pos _ =>
      (pos < List.length (rows_of k st))%nat \/ in_sync st
  | AddQueryPart | AddNotPart => in_sync st
  | NotRemoveBtn _ | OperatorChange _ => False
  end ->
  in_sync (step st e).
Proof.
  assert (Ed : forall k pos f,
            (pos < List.length (rows_of k st))%nat \/ in_sync st ->
            in_sync (after (control_edit k pos f st))).
  { intros k pos f H. unfold control_edit.
    destruct (Nat.ltb_spec pos (List.length (rows_of k st))) as [Hlt|Hge].
    - apply build_query_in_sync.
    - destruct H as [H|H]; [lia | exact H]. }
  assert (Add : forall k, in_sync st -> in_sync (after (add_click k st))).
  { intros k H. unfold in_sync in *.
    assert (E := push_operands_add_part).
    destruct k; cbn [add_click]; unfold add_query_part_click, add_not_part_click.
    - specialize (E part_pattern (query_chunks st)).
      destruct (add_part (query_chunks st)); cbn [after set_query_chunks id_q] in *;
        rewrite H; symmetry; now apply query_string_ext.
    - specialize (E not_pattern (not_chunks st)).
      destruct (add_part (not_chunks st)); cbn [after set_not_chunks id_q] in *;
        rewrite H; symmetry; now apply query_string_ext. }
  unfold step. destruct e as [| |a|a|k pos text|k pos value|value]; cbn [handle]; intros H.
  - now apply (Add Query).
  - now apply (Add Not).
  - apply build_query_in_sync.
  - contradiction.
  - now apply Ed.
  - now apply Ed.
  - contradiction.
Qed.

(** C3 fails on the exclude remove handler: with two exclude rows
    [tag:archived] and [tag:old] and [#id_q] up to date, the click that
    removes the second row leaves [#id_q] at the query of both rows, while
    [build_query] on the page would now write the query of the first row
    alone.  The include remove handler, in the same place, calls
    [build_query]. *)
Theorem not_remove_leaves_stale_query :
  let st := run [KeywordEdit Not 0 "archived"; AddNotPart; KeywordEdit Not 1 "old"]
                (initial_page "tag" "AND") in
  let st' := after (not_remove_btn_click "not_remove_1" st) in
  id_q st = query_string st
  /\ map (fun c => in_val (input c)) (not_chunks st') = ["archived"]
  /\ id_q st' = "-tag:archived -tag:old"
  /\ query_string st' = "-tag:archived"
  /\ ~ in_sync st'.
Proof.
  evaluate. intros H. vm_compute in H. discriminate H.
Qed.

(** * Further properties of the script *)

(** ** jQuery.substitute *)

Lemma length_append (a b : string) :
  String.length (a ++ b) = (String.length a + String.length b)%nat.
Proof. induction a as [|x a IH]; cbn; [reflexivity | now rewrite IH]. Qed.

Lemma substitute_from_no_brace (sub : list (string * string)) :
  forall (pre rest : string) (fuel fuel' : nat),
    no_brace pre = true ->
    (String.length (pre ++ rest) <= fuel)%nat -> (String.length rest <= fuel')%nat ->
    substitute_from fuel (pre ++ rest) sub = pre ++ substitute_from fuel' rest sub.
Proof.
  induction pre as [|c pre IH]; intros rest fuel fuel' Hb Hf Hf'.
  - now apply substitute_from_fuel.
  - cbn [no_brace all_chars] in Hb. apply andb_prop in Hb as [Hc Hb].
    apply negb_true_iff in Hc.
    destruct fuel as [|fuel]; [cbn in Hf; lia|].
    remember (substitute_from fuel' rest sub) as R eqn:ER.
    cbn [append String.length] in *. cbn [substitute_from]. rewrite Hc.
    f_equal. subst R. apply IH; [exact Hb | lia | exact Hf'].
Qed.

Lemma up_to_brace_key (name post : string) :
  all_chars (fun c => negb (Ascii.eqb c "}") && negb (is_line_end c)) name = true ->
  up_to_brace (name ++ String "}" post) = Some (name, post).
Proof.
  induction name as [|c name IH]; intros H; [reflexivity|].
  cbn [all_chars] in H. apply andb_prop in H as [Hc H].
  apply andb_prop in Hc as [Hb Hl]. apply negb_true_iff in Hb, Hl.
  cbn [append up_to_brace]. now rewrite Hb, Hl, (IH H).
Qed.

(** X1: [jQuery.substitute] copies the text in front of the first opening
    brace as it is and goes on with the rest; a template without opening
    brace comes back unchanged, whatever the object holds. *)
Theorem substitute_plain_text :
  forall (sub : list (string * string)) (pre rest : string),
    no_brace pre = true ->
    substitute (pre ++ rest) sub = pre ++ substitute rest sub
    /\ substitute pre sub = pre.
Proof.
  intros sub pre rest Hb. unfold substitute. split.
  - apply substitute_from_no_brace; [exact Hb | lia | lia].
  - rewrite <- (append_empty_r pre) at 2 3.
    rewrite (substitute_from_no_brace sub pre "" _ 0 Hb); [reflexivity | | cbn; lia].
    rewrite append_empty_r. lia.
Qed.

Lemma substitute_plain_text_witness :
  substitute ("field: " ++ "{x}") [("x", "title")]
  = "field: " ++ substitute "{x}" [("x", "title")]
  /\ substitute "field: " [("x", "title")] = "field: ".
Proof. apply (substitute_plain_text [("x", "title")] "field: " "{x}"). reflexivity. Defined.

Lemma substitute_from_brace (sub : list (string * string)) (fuel : nat) (d : ascii)
    (r : string) :
  substitute_from (S fuel) (String "{" (String d r)) sub
  = if is_line_end d then String "{" (substitute_from fuel (String d r) sub)
    else match up_to_brace r with
         | Some (name, rest) =>
             match find (fun kv => String.eqb (fst kv) (String d name)) sub with
             | Some kv => snd kv
             | None => String "{" (String d name ++ "}")
             end ++ substitute_from fuel rest sub
         | None => String "{" (substitute_from fuel (String d r) sub)
         end.
Proof. reflexivity. Qed.

(** X2: a placeholder [{key}] at the head of the template, with [key]
    one of the object's own properties (each listed once), is replaced by
    the value listed for [key], taken as it is: braces in the value are
    not read again.  The rest of the template is treated on its own. *)
Theorem substitute_placeholder :
  forall (sub : list (string * string)) (key post v : string),
    key_ok key = true ->
    NoDup (map fst sub) ->
    lookup sub key = Some v ->
    substitute ("{" ++ key ++ "}" ++ post) sub = v ++ substitute post sub.
Proof.
  intros sub key post v Hk _ Hv. unfold key_ok in Hk. apply andb_prop in Hk as [Hne Hk].
  destruct key as [|d name]; [discriminate|]. clear Hne.
  assert (Hw : forall s,
            all_chars (fun c => (N_of_ascii c <? 128)%N
                                && negb (Ascii.eqb c "}") && negb (is_line_end c)) s = true ->
            all_chars (fun c => negb (Ascii.eqb c "}") && negb (is_line_end c)) s = true).
  { induction s as [|c s IH]; [reflexivity|]. cbn [all_chars]. intros H.
    apply andb_prop in H as [Hc H]. apply andb_prop in Hc as [Hc Hl].
    apply andb_prop in Hc as [_ Hc]. now rewrite Hc, Hl, (IH H). }
  apply Hw in Hk. cbn [all_chars] in Hk. apply andb_prop in Hk as [Hd Hname].
  apply andb_prop in Hd as [_ Hl]. apply negb_true_iff in Hl.
  unfold lookup in Hv. unfold substitute.
  change ("{" ++ String d name ++ "}" ++ post)
    with (String "{" (String d (name ++ String "}" post))).
  cbn [String.length]. rewrite substitute_from_brace.
  rewrite Hl, (up_to_brace_key name post Hname).
  assert (F : substitute_from (S (String.length (name ++ String "}" post))) post sub
              = substitute_from (String.length post) post sub).
  { apply substitute_from_fuel; [|lia]. rewrite length_append. cbn. lia. }
  rewrite F.
  destruct (find (fun kv => String.eqb (fst kv) (String d name)) sub) as [kv|];
    cbn [option_map] in Hv; [|discriminate]. now injection Hv as ->.
Qed.

Lemma substitute_placeholder_witness :
  let sub := [("param", "{keyword}"); ("keyword", "cats")] in
  substitute ("{" ++ "param" ++ "}" ++ ":{keyword}") sub
  = "{keyword}" ++ substitute ":{keyword}" sub.
Proof.
  cbv zeta.
  apply (substitute_placeholder
           [("param", "{keyword}"); ("keyword", "cats")] "param" ":{keyword}" "{keyword}").
  - reflexivity.
  - cbn [map fst]. constructor.
    + intros [H|[]]. discriminate H.
    + constructor; [intros [] | constructor].
  - reflexivity.
Defined.

Lemma up_to_brace_none (s : string) :
  no_closing_brace s = true -> up_to_brace s = None.
Proof.
  induction s as [|c s IH]; intros H; [reflexivity|].
  cbn [no_closing_brace all_chars] in H. apply andb_prop in H as [Hc H].
  apply negb_true_iff in Hc. cbn [up_to_brace]. rewrite Hc.
  destruct (is_line_end c); [reflexivity|]. now rewrite (IH H).
Qed.

(** X12: an opening brace that is never closed is no placeholder: a
    template without closing brace comes back unchanged, whatever the
    object holds. *)
Theorem substitute_unclosed_brace :
  forall (sub : list (string * string)) (str : string),
    no_closing_brace str = true -> substitute str sub = str.
Proof.
  intros sub str. unfold substitute. generalize (String.length str) as fuel.
  intros fuel. revert str.
  induction fuel as [|fuel IH]; intros str H; [reflexivity|].
  destruct str as [|c r]; [reflexivity|].
  cbn [no_closing_brace all_chars] in H. apply andb_prop in H as [_ H].
  cbn [substitute_from]. rewrite (IH r H).
  destruct (Ascii.eqb c "{"); [|reflexivity].
  destruct r as [|d r']; [reflexivity|].
  destruct (is_line_end d); [reflexivity|].
  cbn [no_closing_brace all_chars] in H. apply andb_prop in H as [_ H].
  now rewrite (up_to_brace_none r' H).
Qed.

Lemma substitute_unclosed_brace_witness :
  substitute "{param:{keyword" [("param", "title"); ("keyword", "cats")]
  = "{param:{keyword".
Proof.
  apply (substitute_unclosed_brace [("param", "title"); ("keyword", "cats")]
           "{param:{keyword").
  reflexivity.
Defined.

(** ** increment_ids and the names of the controls *)

Lemma replace_numeral_in_name (k : kind) (n : N) (r lead tail : string) :
  all_chars (fun c => negb (is_digit c)) (lead ++ control_of k ++ "-") = true ->
  replace_first (dec n) r (lead ++ control_of k ++ "-" ++ dec n ++ tail)
  = lead ++ control_of k ++ "-" ++ r ++ tail.
Proof.
  intros H.
  assert (E : forall x, lead ++ control_of k ++ "-" ++ x = (lead ++ control_of k ++ "-") ++ x).
  { intros x. now rewrite !append_assoc. }
  rewrite (E (dec n ++ tail)), (E (r ++ tail)).
  apply replace_first_numeral; [apply dec_nonempty | apply dec_digits | exact H].
Qed.

Lemma row_at_same (k : kind) (n : N) (c c' : chunk) :
  chunk_id c' = chunk_id c ->
  sel_name (select c') = sel_name (select c) -> sel_id (select c') = sel_id (select c) ->
  in_name (input c') = in_name (input c) -> in_id (input c') = in_id (input c) ->
  row_at k n c -> row_at k n c'.
Proof.
  intros E1 E2 E3 E4 E5 (H1 & H2 & H3 & H4 & H5).
  unfold row_at. now rewrite E1, E2, E3, E4, E5.
Qed.

Lemma increment_ids_row_at (k : kind) (n : N) (c : chunk) :
  (n < exact_limit)%N -> row_at k n c -> row_at k (n + 1) (increment_ids c).
Proof.
  intros Hn (H1 & H2 & H3 & H4 & H5).
  assert (Hfrom : id_from c = dec n) by now apply (id_from_id_of k).
  assert (Hto : number_to_string (add1 (parseInt (id_from c))) = dec (n + 1)).
  { rewrite Hfrom, parseInt_dec by lia. now apply number_to_string_succ. }
  unfold row_at, increment_ids. rewrite Hto, Hfrom.
  cbn [chunk_id select input rename_select rename_input sel_name sel_id in_name in_id].
  rewrite H2, H3, H4, H5.
  split.
  - pose proof (increment_ids_id_of k n c Hn H1) as E.
    unfold increment_ids in E. cbn [chunk_id] in E. now rewrite Hto, Hfrom in E.
  - repeat split.
    + apply (replace_numeral_in_name k n _ "" "-field"). now destruct k.
    + apply (replace_numeral_in_name k n _ "id_" "-field"). now destruct k.
    + apply (replace_numeral_in_name k n _ "" "-value"). now destruct k.
    + apply (replace_numeral_in_name k n _ "id_" "-value"). now destruct k.
Qed.

(** X3: on a row that carries the number [n] (below [2^53]) in the [id] of
    its [div] and in the [name] and [id] of its two controls,
    [increment_ids] puts [n + 1] in all five places, and leaves the class,
    the chosen field and the keyword as they are. *)
Theorem increment_ids_renumbers :
  forall (k : kind) (n : N) (c : chunk),
    (n < exact_limit)%N ->
    row_at k n c ->
    row_at k (n + 1) (increment_ids c)
    /\ removable (increment_ids c) = removable c
    /\ clause (increment_ids c) = clause c.
Proof.
  intros k n c Hn Hr. split.
  - now apply increment_ids_row_at.
  - split; reflexivity.
Qed.

Lemma first_row_at (k : kind) (field : string) :
  row_at k 0 (first_row (div_prefix k) (control_of k) field).
Proof. destruct k; repeat split. Qed.

Lemma increment_ids_renumbers_witness :
  row_at Query 1 (increment_ids (first_row "query_chunk_" "query" "title"))
  /\ removable (increment_ids (first_row "query_chunk_" "query" "title")) = false
  /\ clause (increment_ids (first_row "query_chunk_" "query" "title")) = ("title", "").
Proof.
  apply (increment_ids_renumbers Query 0 (first_row "query_chunk_" "query" "title")).
  - reflexivity.
  - apply (first_row_at Query).
Defined.

Lemma named_mono (k : kind) (b b' : N) (rows : list chunk) :
  (b <= b')%N ->
  Forall (fun c => exists n, (n <= b)%N /\ row_at k n c) rows ->
  Forall (fun c => exists n, (n <= b')%N /\ row_at k n c) rows.
Proof.
  intros Hb H. eapply Forall_impl; [|exact H]. cbv beta.
  intros c (n & Hn & Hr). exists n. split; [lia | exact Hr].
Qed.

Lemma named_first_set (k : kind) (b : N) (m : bool) (rows : list chunk) :
  Forall (fun c => exists n, (n <= b)%N /\ row_at k n c) rows ->
  Forall (fun c => exists n, (n <= b)%N /\ row_at k n c) (first_set_removable m rows).
Proof.
  destruct rows as [|c rows]; [trivial|]. cbn [first_set_removable].
  intros H. inversion H as [|? ? (n & Hn & Hr) Hrest]; subst.
  constructor; [|exact Hrest]. exists n. split; [exact Hn|].
  now apply (row_at_same k n c).
Qed.

Lemma named_update_at (k : kind) (b : N) (pos : nat) (f : chunk -> chunk)
    (rows : list chunk) :
  (forall n c, row_at k n c -> row_at k n (f c)) ->
  Forall (fun c => exists n, (n <= b)%N /\ row_at k n c) rows ->
  Forall (fun c => exists n, (n <= b)%N /\ row_at k n c) (update_at pos f rows).
Proof.
  intros Hf H. revert pos.
  induction H as [|c rows (n & Hn & Hr) Hrest IH]; intros pos.
  - destruct pos; constructor.
  - destruct pos as [|pos]; cbn [update_at]; constructor.
    + exists n. split; [exact Hn | now apply Hf].
    + exact Hrest.
    + now exists n.
    + apply IH.
Qed.

Lemma named_filter (k : kind) (b : N) (p : chunk -> bool) (rows : list chunk) :
  Forall (fun c => exists n, (n <= b)%N /\ row_at k n c) rows ->
  Forall (fun c => exists n, (n <= b)%N /\ row_at k n c) (filter p rows).
Proof.
  intros H. apply Forall_forall. intros c Hc. apply filter_In in Hc as [Hc _].
  rewrite Forall_forall in H. now apply H.
Qed.

Lemma named_add_part (k : kind) (b : N) (rows : list chunk) :
  (b < exact_limit)%N ->
  Forall (fun c => exists n, (n <= b)%N /\ row_at k n c) rows ->
  Forall (fun c => exists n, (n <= b + 1)%N /\ row_at k n c) (after (add_part rows)).
Proof.
  intros Hlim H.
  destruct rows as [|a rows].
  - rewrite add_part_empty. constructor.
  - assert (Hne : a :: rows <> []) by discriminate.
    destruct (last_of_some _ Hne) as [front [l E]]. rewrite E in *. clear E Hne.
    destruct (add_part_snoc front l) as (front' & l' & _ & _ & Hid & Hsel & Hin & _ & E2).
    cbn zeta in E2. rewrite E2. cbn [after].
    apply Forall_app. split.
    + apply named_mono with (b := b); [lia|]. now apply named_first_set.
    + constructor; [|constructor].
      apply Forall_app in H as [_ H]. inversion H as [|? ? (n & Hn & Hr) _]; subst.
      exists (n + 1)%N. split; [lia|].
      apply increment_ids_row_at; [lia|].
      apply (row_at_same k n l); try reflexivity; try exact Hr; cbn;
        now rewrite ?Hid, ?Hsel, ?Hin.
Qed.

Lemma rows_named_step (b : N) (st : page) (e : event) :
  (b < exact_limit)%N -> rows_named b st -> rows_named (b + 1) (step st e).
Proof.
  intros Hlim H. unfold rows_named in *.
  pose (P := fun (k0 : kind) r =>
               Forall (fun c => exists n, (n <= b + 1)%N /\ row_at k0 n c) r).
  assert (Hm : forall k, P k (rows_of k st)).
  { intros k. apply named_mono with (b := b); [lia | apply H]. }
  assert (Add : forall k k', P k' (rows_of k' (after (add_click k st)))).
  { intros k. destruct (add_click_rows k st) as (E1 & E2 & _).
    apply (rows_of_other k P); unfold P.
    - rewrite E1. apply named_add_part; [exact Hlim | apply H].
    - rewrite E2. apply Hm. }
  assert (Rem : forall k a k', P k' (rows_of k' (after (remove_click k a st)))).
  { intros k a. destruct (remove_click_rows k a st) as (E1 & E2 & _).
    apply (rows_of_other k P); unfold P.
    - rewrite E1. unfold single_not_removable.
      destruct (List.length _ =? 1)%nat; [apply named_first_set|];
        apply named_filter, Hm.
    - rewrite E2. apply named_filter, Hm. }
  assert (Ed : forall k pos f, (forall k0 n c, row_at k0 n c -> row_at k0 n (f c)) ->
            forall k', P k' (rows_of k' (after (control_edit k pos f st)))).
  { intros k pos f Hf. destruct (control_edit_rows k pos f st) as (E1 & E2 & _).
    apply (rows_of_other k P); unfold P.
    - rewrite E1. apply named_update_at; [apply Hf | apply Hm].
    - rewrite E2. apply Hm. }
  unfold step. destruct e as [| |a|a|k pos text|k pos value|value]; cbn [handle].
  - apply (Add Query).
  - apply (Add Not).
  - apply (Rem Query).
  - apply (Rem Not).
  - apply Ed. intros k0 n c Hr. now apply (row_at_same k0 n c).
  - apply Ed. intros k0 n c Hr. now apply (row_at_same k0 n c).
  - intros k. destruct k; [apply (Hm Query) | apply (Hm Not)].
Qed.

Lemma initial_rows_named (field operator : string) :
  rows_named 0 (initial_page field operator).
Proof.
  intros k. destruct k; (constructor; [|constructor]); exists 0%N;
    (split; [lia|]); [apply (first_row_at Query) | apply (first_row_at Not)].
Qed.

(** X4: the [div] and the two controls of a row keep one number.  On a
    page where every row carries a number up to [b] in the [id] of its
    [div] and in the [name] and [id] of its controls, as on the initial
    page, this is so after every event of a run that stays below [2^53]:
    appends number the new row with the next number throughout, and
    removals and edits touch no [name] and no [id]. *)
Theorem controls_follow_the_row_number :
  forall (evs : list event) (st : page) (b : N),
    rows_named b st ->
    (b + N.of_nat (List.length evs) <= exact_limit)%N ->
    Forall (rows_named (b + N.of_nat (List.length evs))) (trace evs st).
Proof.
  assert (Hm : forall b b' st, (b <= b')%N -> rows_named b st -> rows_named b' st).
  { intros b b' st Hb H k. apply named_mono with (b := b); [exact Hb | apply H]. }
  induction evs as [|e evs IH]; intros st b H Hlim; cbn [trace]; constructor.
  - apply Hm with (b := b); [lia | exact H].
  - constructor.
  - apply Hm with (b := b); [lia | exact H].
  - cbn [List.length] in Hlim.
    apply rows_named_step with (e := e) in H; [|lia]. apply IH in H; [|lia].
    eapply Forall_impl; [|exact H]. cbv beta. intros s. apply Hm.
    cbn [List.length]. lia.
Qed.

Lemma controls_follow_the_row_number_witness :
  Forall (rows_named 5)
    (trace [AddQueryPart; FieldEdit Query 1 "author"; RemoveBtn "remove_0";
            AddQueryPart; AddNotPart]
       (initial_page "title" "AND")).
Proof.
  apply (controls_follow_the_row_number
           [AddQueryPart; FieldEdit Query 1 "author"; RemoveBtn "remove_0";
            AddQueryPart; AddNotPart] (initial_page "title" "AND") 0%N).
  - apply initial_rows_named.
  - now vm_compute.
Defined.

(** ** The class removable *)

Lemma crowd_filter (p : chunk -> bool) (rows : list chunk) :
  crowd_removable rows -> crowd_removable (filter p rows).
Proof.
  intros H Hlen. pose proof (filter_length_le p rows) as L.
  apply Forall_forall. intros c Hc. apply filter_In in Hc as [Hc _].
  assert (Hall := H ltac:(lia)). rewrite Forall_forall in Hall. now apply Hall.
Qed.

Lemma crowd_single_not_removable (rows : list chunk) :
  crowd_removable rows -> crowd_removable (single_not_removable rows).
Proof.
  intros H. unfold single_not_removable.
  destruct (Nat.eqb_spec (List.length rows) 1) as [E|E]; [|exact H].
  intros Hlen. destruct rows as [|c [|c' rows]]; cbn in E, Hlen; lia.
Qed.

Lemma crowd_update_at (pos : nat) (f : chunk -> chunk) (rows : list chunk) :
  (forall c, removable (f c) = removable c) ->
  crowd_removable rows -> crowd_removable (update_at pos f rows).
Proof.
  intros Hf H Hlen.
  assert (L : forall p r, List.length (update_at p f r) = List.length r).
  { intros p r. revert p. induction r as [|c r IH]; intros [|p]; cbn; auto. }
  rewrite L in Hlen. specialize (H Hlen). clear Hlen L. revert pos.
  induction H as [|c r Hc Hr IH]; intros [|pos]; cbn [update_at]; constructor;
    try assumption; [now rewrite Hf | apply IH].
Qed.

Lemma first_set_all_removable (rows : list chunk) :
  crowd_removable rows -> Forall (fun c => removable c = true) (first_set_removable true rows).
Proof.
  intros H. destruct rows as [|c [|c' rows]]; cbn [first_set_removable].
  - constructor.
  - constructor; [reflexivity | constructor].
  - assert (Hall := H ltac:(cbn; lia)).
    inversion Hall; subst. constructor; [reflexivity | assumption].
Qed.

Lemma crowd_add_part (rows : list chunk) :
  crowd_removable rows -> crowd_removable (after (add_part rows)).
Proof.
  intros H _. destruct rows as [|a rows]; [constructor|].
  assert (Hne : a :: rows <> []) by discriminate.
  destruct (last_of_some _ Hne) as [front [l E]]. rewrite E in *. clear E Hne.
  pose proof (first_set_all_removable _ H) as Hall.
  destruct (add_part_snoc front l) as (front' & l' & E1 & _ & _ & _ & _ & _ & E2).
  cbn zeta in E1, E2. rewrite E2. cbn [after].
  apply Forall_app. split; [exact Hall|].
  constructor; [|constructor].
  rewrite E1 in Hall. apply Forall_app in Hall as [_ Hl]. now inversion Hl.
Qed.

Lemma crowd_marked_step (st : page) (e : event) :
  crowd_marked st -> crowd_marked (step st e).
Proof.
  intros H. unfold crowd_marked in *.
  pose (P := fun (_ : kind) r => crowd_removable r).
  assert (Add : forall k k', P k' (rows_of k' (after (add_click k st)))).
  { intros k. destruct (add_click_rows k st) as (E1 & E2 & _).
    apply (rows_of_other k P); unfold P.
    - rewrite E1. apply crowd_add_part, H.
    - rewrite E2. apply H. }
  assert (Rem : forall k a k', P k' (rows_of k' (after (remove_click k a st)))).
  { intros k a. destruct (remove_click_rows k a st) as (E1 & E2 & _).
    apply (rows_of_other k P); unfold P.
    - rewrite E1. apply crowd_single_not_removable, crowd_filter, H.
    - rewrite E2. apply crowd_filter, H. }
  assert (Ed : forall k pos f, (forall c, removable (f c) = removable c) ->
            forall k', P k' (rows_of k' (after (control_edit k pos f st)))).
  { intros k pos f Hf. destruct (control_edit_rows k pos f st) as (E1 & E2 & _).
    apply (rows_of_other k P); unfold P.
    - rewrite E1. apply crowd_update_at; [exact Hf | apply H].
    - rewrite E2. apply H. }
  unfold step. destruct e as [| |a|a|k pos text|k pos value|value]; cbn [handle].
  - apply (Add Query).
  - apply (Add Not).
  - apply (Rem Query).
  - apply (Rem Not).
  - now apply Ed.
  - now apply Ed.
  - intros k. destruct k; [apply (H Query) | apply (H Not)].
Qed.

(** X5: whenever a kind has two rows or more, each of them has the class
    [removable].  The add handlers mark the first row before they clone
    the last, the remove handlers only take the mark from a row left
    alone, and edits do not touch it: a page on which this holds, as the
    initial page, keeps it after every event of every run. *)
Theorem crowd_marked_along_a_run :
  forall (evs : list event) (st : page),
    crowd_marked st -> Forall crowd_marked (trace evs st).
Proof.
  induction evs as [|e evs IH]; intros st H; cbn [trace]; constructor;
    try assumption; [constructor|].
  apply IH. now apply crowd_marked_step.
Qed.

Lemma initial_crowd_marked (field operator : string) :
  crowd_marked (initial_page field operator).
Proof. intros [|] Hlen; cbn in Hlen; lia. Qed.

Lemma crowd_marked_along_a_run_witness :
  Forall crowd_marked
    (trace [AddQueryPart; AddQueryPart; RemoveBtn "remove_1"; RemoveBtn "remove_0";
            AddQueryPart]
       (initial_page "title" "AND")).
Proof.
  apply (crowd_marked_along_a_run
           [AddQueryPart; AddQueryPart; RemoveBtn "remove_1"; RemoveBtn "remove_0";
            AddQueryPart] (initial_page "title" "AND")).
  apply initial_crowd_marked.
Defined.

(** ** When [#id_q] is up to date *)

(** X6: [#id_q] only goes out of date through an exclude remove click or
    a change of the operator.  Along a run without these two events a
    field that holds what [build_query] would write holds it after every
    event: the include remove handler and the edits of the controls call
    [build_query], and the add handlers append a row that it skips. *)
Theorem in_sync_along_a_run :
  forall (evs : list event) (st : page),
    forallb keeps_sync evs = true ->
    in_sync st ->
    Forall in_sync (trace evs st).
Proof.
  induction evs as [|e evs IH]; intros st Hk Hs; cbn [trace]; constructor;
    try assumption; [constructor|].
  cbn [forallb] in Hk. apply andb_prop in Hk as [He Hk].
  apply IH; [exact Hk|]. apply step_in_sync.
  destruct e; cbn in He; try discriminate; auto.
Qed.

Lemma in_sync_along_a_run_witness :
  Forall in_sync
    (trace [KeywordEdit Query 0 "cats"; AddQueryPart; FieldEdit Query 1 "author";
            KeywordEdit Not 0 "old"; RemoveBtn "remove_0"; AddNotPart]
       (initial_page "title" "AND")).
Proof.
  apply (in_sync_along_a_run
           [KeywordEdit Query 0 "cats"; AddQueryPart; FieldEdit Query 1 "author";
            KeywordEdit Not 0 "old"; RemoveBtn "remove_0"; AddNotPart]
           (initial_page "title" "AND")).
  - reflexivity.
  - reflexivity.
Defined.

(** ** What build_query reads *)

Lemma push_operands_clauses (pattern : string) (rows rows' : list chunk) :
  map clause rows = map clause rows' ->
  push_operands pattern rows = push_operands pattern rows'.
Proof.
  rewrite !push_operands_filter. revert rows'.
  induction rows as [|c rows IH]; intros [|c' rows'] E; try discriminate; [reflexivity|].
  cbn [map] in E. unfold clause at 1 3 in E. injection E as Ef Ek Er.
  assert (Hk : has_keyword c = has_keyword c') by (unfold has_keyword; now rewrite Ek).
  cbn [filter]. rewrite Hk.
  destruct (has_keyword c'); cbn [map]; rewrite (IH _ Er); [|reflexivity].
  f_equal. unfold obj. now rewrite Ef, Ek.
Qed.

(** X7: [build_query] reads of the rows only the chosen field and the
    keyword, in order: two pages with the same operator and the same
    fields and keywords in their include rows and in their exclude rows
    get the same query, whatever the [id]s, the [name]s and the classes
    of the rows are. *)
Theorem build_query_reads_clauses_only :
  forall st st' : page,
    id_operator st = id_operator st' ->
    map clause (query_chunks st) = map clause (query_chunks st') ->
    map clause (not_chunks st) = map clause (not_chunks st') ->
    id_q (after (build_query st)) = id_q (after (build_query st')).
Proof.
  intros st st' Ho Hq Hn. cbn [build_query after set_q id_q].
  apply query_string_ext; [easy | |]; now apply push_operands_clauses.
Qed.

Lemma build_query_reads_clauses_only_witness :
  id_q (after (build_query
                 (run [AddQueryPart; KeywordEdit Query 1 "cats"; RemoveBtn "remove_0"]
                    (initial_page "title" "AND"))))
  = id_q (after (build_query
                   (run [KeywordEdit Query 0 "cats"] (initial_page "title" "AND")))).
Proof.
  apply build_query_reads_clauses_only; vm_compute; reflexivity.
Defined.

(** X8: a row with an empty keyword counts for nothing wherever it
    stands: taking it out of the rows of its kind leaves what
    [build_query] writes as it is, whatever its field is. *)
Theorem empty_keyword_row_is_skipped :
  forall (k : kind) (st : page) (pre post : list chunk) (c : chunk),
    rows_of k st = (pre ++ c :: post)%list ->
    in_val (input c) = "" ->
    id_q (after (build_query (set_rows k st (pre ++ post)%list)))
    = id_q (after (build_query st)).
Proof.
  intros k st pre post c E Hc. cbn [build_query after set_q id_q].
  assert (P : forall pattern,
             push_operands pattern (pre ++ post)%list
             = push_operands pattern (pre ++ c :: post)%list).
  { intros pattern. rewrite !push_operands_filter, !filter_app. cbn [filter].
    assert (Hk : has_keyword c = false) by (unfold has_keyword; now rewrite Hc).
    now rewrite Hk. }
  destruct k; cbn [rows_of set_rows] in *; apply query_string_ext;
    cbn [set_query_chunks set_not_chunks id_operator query_chunks not_chunks];
    rewrite ?E; try reflexivity; apply P.
Qed.

Lemma empty_keyword_row_is_skipped_witness :
  let st := run [KeywordEdit Query 0 "cats"; AddQueryPart; AddQueryPart;
                 KeywordEdit Query 2 "smith"] (initial_page "title" "AND") in
  id_q (after (build_query
                 (set_rows Query st
                    ([nth 0 (query_chunks st) (first_row "" "" "")]
                     ++ [nth 2 (query_chunks st) (first_row "" "" "")])%list)))
  = id_q (after (build_query st)).
Proof.
  cbv zeta.
  apply (empty_keyword_row_is_skipped Query _ _ _
           (nth 1 (query_chunks
                     (run [KeywordEdit Query 0 "cats"; AddQueryPart; AddQueryPart;
                           KeywordEdit Query 2 "smith"] (initial_page "title" "AND")))
              (first_row "" "" ""))); vm_compute; reflexivity.
Defined.

(** ** A remove click and the row it names *)

Lemma ascending_all_above (ns : list N) :
  forall lo, ascending_from lo (map int_of_N ns) -> Forall (fun m => (lo < Z.of_N m)%Z) ns.
Proof.
  induction ns as [|n ns IH]; intros lo H; constructor; cbn in H; destruct H as [H1 H2].
  - exact H1.
  - eapply Forall_impl; [|apply (IH _ H2)]. cbv beta. intros m Hm. lia.
Qed.

Lemma ascending_split (ns1 ns2 : list N) (n : N) :
  forall lo, ascending_from lo (map int_of_N (ns1 ++ n :: ns2)) ->
             Forall (fun m => (m < n)%N) ns1 /\ Forall (fun m => (n < m)%N) ns2.
Proof.
  induction ns1 as [|a ns1 IH]; intros lo H; cbn in H; destruct H as [H1 H2].
  - split; [constructor|].
    eapply Forall_impl; [|apply (ascending_all_above _ _ H2)]. cbv beta. intros m Hm. lia.
  - destruct (IH _ H2) as [Hl Hr]. split; [|exact Hr].
    constructor; [|exact Hl].
    pose proof (ascending_all_above _ _ H2) as Ha.
    rewrite Forall_forall in Ha. specialize (Ha n ltac:(apply in_elt)). lia.
Qed.

Lemma remove_div_numbered (k : kind) (n : N) (rows : list chunk) :
  forall ns, map chunk_id rows = map (id_of k) ns -> Forall (fun m => m <> n) ns ->
             remove_div (id_of k n) rows = rows.
Proof.
  unfold remove_div.
  induction rows as [|c rows IH]; intros ns E H; [reflexivity|].
  destruct ns as [|m ns]; [discriminate|]. cbn [map] in E. injection E as Ec Er.
  inversion H as [|? ? Hm Hns]; subst. cbn [filter].
  destruct (String.eqb_spec (chunk_id c) (id_of k n)) as [Eq|Ne]; cbn [negb].
  - rewrite Ec in Eq. apply id_of_inj in Eq. contradiction.
  - f_equal. now apply (IH ns).
Qed.

Lemma remove_div_one_row (k : kind) (b n : N) (pre post : list chunk) (c : chunk) :
  (b <= exact_limit)%N ->
  rows_ok k b (pre ++ c :: post) -> chunk_id c = id_of k n ->
  remove_div (id_of k n) (pre ++ c :: post) = (pre ++ post)%list.
Proof.
  intros Hlim [[ns [Hn Hb]] Ha] Hc.
  unfold ascending in Ha. rewrite (numbered_indices k b _ _ Hlim Hb Hn) in Ha.
  rewrite map_app in Hn. symmetry in Hn. apply map_eq_app in Hn.
  destruct Hn as (ns1 & ns2' & -> & E1 & E2).
  cbn [map] in E2. apply map_eq_cons in E2. destruct E2 as (n' & ns2 & -> & En & E2).
  rewrite Hc in En. apply id_of_inj in En. subst n'.
  apply ascending_split in Ha as [Hl Hr].
  unfold remove_div. rewrite filter_app. cbn [filter].
  rewrite Hc, String.eqb_refl. cbn [negb].
  fold (remove_div (id_of k n) pre). fold (remove_div (id_of k n) post).
  rewrite (remove_div_numbered k n pre ns1), (remove_div_numbered k n post ns2);
    try easy.
  - eapply Forall_impl; [|exact Hr]. cbv beta. intros m Hm. lia.
  - eapply Forall_impl; [|exact Hl]. cbv beta. intros m Hm. lia.
Qed.

Lemma run_page_ok (evs : list event) :
  forall (st : page) (b : N),
    page_ok b st ->
    (b + N.of_nat (List.length evs) <= exact_limit)%N ->
    page_ok (b + N.of_nat (List.length evs)) (run evs st).
Proof.
  induction evs as [|e evs IH]; intros st b H Hlim.
  - apply page_ok_mono with (b := b); [cbn; lia | exact H].
  - cbn [List.length] in *. unfold run. cbn [fold_left]. fold (run evs (step st e)).
    apply page_ok_mono with (b := (b + 1 + N.of_nat (List.length evs))%N); [lia|].
    apply IH; [|lia]. apply page_ok_step; [lia | exact H].
Qed.

(** X9: a remove click takes away the row it names and no other.  On a
    page whose row [id]s end in numbers that go up (up to [2^53]), a click
    on a remove anchor whose [id] carries the numeral of [n] takes the row
    numbered [n] out of the rows of its kind, keeps the rows before and
    after it in their order (a row left alone loses the class
    [removable]), and leaves the rows of the other kind and the operator
    as they are. *)
Theorem remove_click_takes_one_row :
  forall (k : kind) (a : string) (st : page) (b n : N)
         (pre post : list chunk) (c : chunk),
    page_ok b st ->
    (b <= exact_limit)%N ->
    remove_index k a = dec n ->
    rows_of k st = (pre ++ c :: post)%list ->
    chunk_id c = id_of k n ->
    rows_of k (after (remove_click k a st)) = single_not_removable (pre ++ post)%list
    /\ rows_of (other k) (after (remove_click k a st)) = rows_of (other k) st
    /\ id_operator (after (remove_click k a st)) = id_operator st.
Proof.
  intros k a st b n pre post c Hok Hlim Ha E Hc.
  rewrite page_ok_kinds in Hok.
  destruct (remove_click_rows k a st) as (E1 & E2 & E3).
  assert (T : target_id k a = id_of k n) by (unfold target_id, id_of; now rewrite Ha).
  rewrite E1, E2, E3, T. repeat split.
  - f_equal. rewrite E. apply (remove_div_one_row k b); [exact Hlim | | exact Hc].
    rewrite <- E. apply Hok.
  - unfold id_of. apply (remove_div_other_kind k b). apply Hok.
Qed.

Lemma remove_click_takes_one_row_witness :
  let st := run [AddQueryPart; AddQueryPart; KeywordEdit Query 1 "cats"]
                (initial_page "title" "AND") in
  rows_of Query (after (remove_click Query "remove_1" st))
  = single_not_removable
      ([nth 0 (query_chunks st) (first_row "" "" "")]
       ++ [nth 2 (query_chunks st) (first_row "" "" "")])%list
  /\ rows_of (other Query) (after (remove_click Query "remove_1" st))
     = rows_of (other Query) st
  /\ id_operator (after (remove_click Query "remove_1" st)) = id_operator st.
Proof.
  cbv zeta.
  apply (remove_click_takes_one_row Query "remove_1" _ 3%N 1%N _ _
           (nth 1 (query_chunks
                     (run [AddQueryPart; AddQueryPart; KeywordEdit Query 1 "cats"]
                        (initial_page "title" "AND")))
              (first_row "" "" ""))).
  - apply (run_page_ok [AddQueryPart; AddQueryPart; KeywordEdit Query 1 "cats"]
             (initial_page "title" "AND") 0%N);
      [apply initial_page_ok | now vm_compute].
  - now vm_compute.
  - vm_compute; reflexivity.
  - vm_compute; reflexivity.
  - vm_compute; reflexivity.
Defined.

(** ** A kind without rows *)

Lemma empty_step (k : kind) (st : page) (e : event) :
  rows_of k st = [] -> rows_of k (step st e) = [].
Proof.
  intros H.
  pose (P := fun (k0 : kind) (r : list chunk) => rows_of k0 st = [] -> r = []).
  assert (Add : forall k0 k', P k' (rows_of k' (after (add_click k0 st)))).
  { intros k0. destruct (add_click_rows k0 st) as (E1 & E2 & _).
    apply (rows_of_other k0 P); unfold P.
    - rewrite E1. now intros ->.
    - now rewrite E2. }
  assert (Rem : forall k0 a k', P k' (rows_of k' (after (remove_click k0 a st)))).
  { intros k0 a. destruct (remove_click_rows k0 a st) as (E1 & E2 & _).
    apply (rows_of_other k0 P); unfold P.
    - rewrite E1. now intros ->.
    - rewrite E2. now intros ->. }
  assert (Ed : forall k0 pos f k', P k' (rows_of k' (after (control_edit k0 pos f st)))).
  { intros k0 pos f. destruct (control_edit_rows k0 pos f st) as (E1 & E2 & _).
    apply (rows_of_other k0 P); unfold P.
    - rewrite E1. intros ->. now destruct pos.
    - now rewrite E2. }
  unfold step. destruct e as [| |a|a|k0 pos text|k0 pos value|value]; cbn [handle].
  - now apply (Add Query).
  - now apply (Add Not).
  - now apply (Rem Query).
  - now apply (Rem Not).
  - now apply Ed.
  - now apply Ed.
  - destruct k; exact H.
Qed.

(** X10: a kind that has lost its last row never gets one again.  The
    add handler clones the last row of its kind; with no row to clone it
    inserts nothing and ends in the exception [increment_ids] raises on
    the empty set, and no other handler makes rows: the kind has no row
    after every event of every run. *)
Theorem empty_kind_stays_empty :
  forall (k : kind) (evs : list event) (st : page),
    rows_of k st = [] ->
    throws (add_click k st) = true
    /\ after (add_click k st) = st
    /\ Forall (fun s => rows_of k s = []) (trace evs st).
Proof.
  intros k evs st H. split; [|split].
  - destruct k; cbn [add_click rows_of] in *;
      unfold add_query_part_click, add_not_part_click; now rewrite H.
  - destruct st as [q n o i]. destruct k; cbn [add_click rows_of] in *;
      unfold add_query_part_click, add_not_part_click; cbn in *; now subst.
  - revert st H. induction evs as [|e evs IH]; intros st H; cbn [trace];
      constructor; try assumption; [constructor|].
    apply IH. now apply empty_step.
Qed.

Lemma empty_kind_stays_empty_witness :
  let st := step (initial_page "title" "AND") (RemoveBtn "remove_0") in
  throws (add_click Query st) = true
  /\ after (add_click Query st) = st
  /\ Forall (fun s => rows_of Query s = [])
       (trace [AddQueryPart; KeywordEdit Query 0 "cats"; AddNotPart; AddQueryPart] st).
Proof.
  cbv zeta.
  apply (empty_kind_stays_empty Query
           [AddQueryPart; KeywordEdit Query 0 "cats"; AddNotPart; AddQueryPart]
           (step (initial_page "title" "AND") (RemoveBtn "remove_0"))).
  vm_compute; reflexivity.
Defined.

(** ** An append and the removal of the appended row *)

Lemma marks_restored (rows : list chunk) :
  alone_not_removable rows -> crowd_removable rows ->
  single_not_removable (first_set_removable true rows) = rows.
Proof.
  intros Ha Hc. destruct rows as [|c [|c' rows]].
  - reflexivity.
  - cbn in Ha. destruct c as [i r s0 i0]. cbn in *. now subst r.
  - assert (Hall := Hc ltac:(cbn; lia)). inversion Hall as [|? ? Hr _]; subst.
    destruct c as [i r s0 i0]. cbn in *. now subst r.
Qed.

(** X11: an append followed by a remove click on the appended row gives
    back the rows there were.  On a page whose row [id]s end in numbers
    that go up (below [2^53]), where a row alone is not marked removable
    and rows that are not alone are, the add handler of a kind with last
    row numbered [n] and then a click on the remove anchor that carries
    the numeral of [n + 1] leave the rows of that kind exactly as they
    were before the two, marks included, and the other kind untouched. *)
Theorem append_then_remove_new_row :
  forall (k : kind) (a : string) (st : page) (b n : N) (l : chunk),
    page_ok b st ->
    (b < exact_limit)%N ->
    last_of (rows_of k st) = Some l ->
    chunk_id l = id_of k n ->
    alone_not_removable (rows_of k st) ->
    crowd_removable (rows_of k st) ->
    remove_index k a = dec (n + 1) ->
    rows_of k (after (remove_click k a (after (add_click k st)))) = rows_of k st
    /\ rows_of (other k) (after (remove_click k a (after (add_click k st))))
       = rows_of (other k) st.
Proof.
  intros k a st b n l Hok Hlim Hl Hid Hal Hcr Ha.
  assert (Hok1 : page_ok (b + 1) (after (add_click k st))).
  { destruct k; [apply (page_ok_step b st AddQueryPart) | apply (page_ok_step b st AddNotPart)];
      assumption. }
  rewrite page_ok_kinds in Hok, Hok1.
  destruct (add_click_rows k st) as (A1 & A2 & _).
  destruct (remove_click_rows k a (after (add_click k st))) as (R1 & R2 & _).
  assert (T : target_id k a = id_of k (n + 1)) by (unfold target_id, id_of; now rewrite Ha).
  rewrite R1, R2, T, A2. clear R1 R2. split.
  - destruct (last_of_snoc_inv _ _ Hl) as [front E].
    destruct (Hok k) as [[ns [Hn Hb]] _]. rewrite E in Hn.
    destruct (numbered_snoc k ns front l Hn) as [ns0 [n0 ->]].
    assert (n0 = n).
    { rewrite !map_app in Hn. cbn [map] in Hn. apply app_inj_tail in Hn as [_ Hn].
      rewrite Hid in Hn. now apply id_of_inj in Hn. }
    subst n0.
    assert (Hnb : (n <= b)%N).
    { apply Forall_app in Hb as [_ Hb]. now inversion Hb. }
    destruct (add_part_numbered k ns0 n front l) as (rows1 & l' & E2 & E1 & _ & _ & Hids);
      [lia | exact Hn |].
    assert (Hnew : chunk_id (appended l') = id_of k (n + 1)).
    { rewrite !(map_app _ rows1), (map_app _ (ns0 ++ [n])%list) in Hids.
      cbn [map] in Hids. now apply app_inj_tail in Hids as [_ Hids]. }
    assert (Hrows : rows_of k (after (add_click k st)) = (rows1 ++ appended l' :: [])%list).
    { rewrite A1, E, E2. reflexivity. }
    specialize (Hok1 k). rewrite Hrows in *.
    rewrite (remove_div_one_row k (b + 1) (n + 1) rows1 [] (appended l'));
      [| lia | exact Hok1 | exact Hnew].
    rewrite app_nil_r, E1, <- E. now apply marks_restored.
  - unfold id_of. apply (remove_div_other_kind k b). apply Hok.
Qed.

Lemma append_then_remove_new_row_witness :
  let st := run [AddNotPart; KeywordEdit Not 1 "old"] (initial_page "title" "AND") in
  rows_of Not (after (remove_click Not "not_remove_2" (after (add_click Not st))))
  = rows_of Not st
  /\ rows_of (other Not) (after (remove_click Not "not_remove_2" (after (add_click Not st))))
     = rows_of (other Not) st.
Proof.
  cbv zeta.
  apply (append_then_remove_new_row Not "not_remove_2" _ 2%N 1%N
           (nth 1 (not_chunks (run [AddNotPart; KeywordEdit Not 1 "old"]
                                 (initial_page "title" "AND")))
              (first_row "" "" ""))).
  - apply (run_page_ok [AddNotPart; KeywordEdit Not 1 "old"]
             (initial_page "title" "AND") 0%N);
      [apply initial_page_ok | now vm_compute].
  - now vm_compute.
  - vm_compute; reflexivity.
  - vm_compute; reflexivity.
  - exact I.
  - intros _. vm_compute. repeat constructor.
  - vm_compute; reflexivity.
Defined.
